(** * Live temperature dashboard (src/dashboard/app.py)

    A shallow embedding of the PyShiny Express application: the bounded
    deque of readings held by [reactive_value_wrapper], the cached
    reactive calculation [reactive_calc_combined], and the five display
    functions that consume it.

    Python floats are modelled as exact rationals extended with the IEEE
    special values (infinities and NaN): rounding error and overflow are
    not modelled, division by zero is. *)

From stdpp Require Import base option list gmap strings.
From Stdlib Require Import QArith Qround Lia Lqa ZArith.

Close Scope Q_scope.

(** * The model *)

(** ** Exceptions and results *)

Inductive exn :=
| KeyError (key : string)
| UnboundLocalError (name : string)
| ValueError (msg : string)
| TypeError (msg : string).

Inductive result (A : Type) :=
| Ok (a : A)
| Raise (e : exn).
Arguments Ok {A} a.
Arguments Raise {A} e.

Definition is_ok {A} (r : result A) : bool :=
  match r with Ok _ => true | Raise _ => false end.

(** ** Floats *)

Module Float.

Local Open Scope Q_scope.

Inductive pyfloat :=
| Finite (q : Q)
| Inf (negative : bool)
| NaN.

Definition negative (q : Q) : bool := (Qnum q <? 0)%Z.

Definition of_Z (z : Z) : pyfloat := Finite (inject_Z z).
Definition of_nat (n : nat) : pyfloat := of_Z (Z.of_nat n).

Definition neg (a : pyfloat) : pyfloat :=
  match a with
  | Finite x => Finite (- x)
  | Inf s => Inf (negb s)
  | NaN => NaN
  end.

Definition add (a b : pyfloat) : pyfloat :=
  match a, b with
  | NaN, _ | _, NaN => NaN
  | Finite x, Finite y => Finite (x + y)
  | Inf s, Finite _ | Finite _, Inf s => Inf s
  | Inf s, Inf t => if Bool.eqb s t then Inf s else NaN
  end.

Definition sub (a b : pyfloat) : pyfloat := add a (neg b).

Definition mul (a b : pyfloat) : pyfloat :=
  match a, b with
  | NaN, _ | _, NaN => NaN
  | Finite x, Finite y => Finite (x * y)
  | Inf s, Finite y | Finite y, Inf s =>
      if Qeq_bool y 0 then NaN else Inf (xorb s (negative y))
  | Inf s, Inf t => Inf (xorb s t)
  end.

(** numpy's float64 division: [x / 0] is not an exception but NaN (for
    [0 / 0]) or a signed infinity, with a RuntimeWarning. *)
Definition div (a b : pyfloat) : pyfloat :=
  match a, b with
  | NaN, _ | _, NaN => NaN
  | Finite x, Finite y =>
      if Qeq_bool y 0
      then (if Qeq_bool x 0 then NaN else Inf (negative x))
      else Finite (x / y)
  | Finite _, Inf _ => Finite 0
  | Inf s, Finite y => Inf (xorb s (negative y))
  | Inf _, Inf _ => NaN
  end.

(** Comparisons with NaN are false. *)
Definition ltb (a b : pyfloat) : bool :=
  match a, b with
  | NaN, _ | _, NaN => false
  | Finite x, Finite y => negb (Qle_bool y x)
  | Finite _, Inf s => negb s
  | Inf s, Finite _ => s
  | Inf s, Inf t => s && negb t
  end.

Definition eqb (a b : pyfloat) : bool :=
  match a, b with
  | Finite x, Finite y => Qeq_bool x y
  | Inf s, Inf t => Bool.eqb s t
  | _, _ => false
  end.

Definition leb (a b : pyfloat) : bool := ltb a b || eqb a b.
Definition gtb (a b : pyfloat) : bool := ltb b a.

Definition is_nan (a : pyfloat) : bool :=
  match a with NaN => true | _ => false end.

(** Equality of float values up to the representation of the rational. *)
Definition same (a b : pyfloat) : Prop :=
  match a, b with
  | Finite x, Finite y => x == y
  | Inf s, Inf t => s = t
  | NaN, NaN => True
  | _, _ => False
  end.

Definition sum (l : list pyfloat) : pyfloat := fold_left add l (Finite 0).

(** [np.mean]: the sum divided by the number of elements. *)
Definition mean (l : list pyfloat) : pyfloat := div (sum l) (of_nat (length l)).

End Float.

Export Float.

(** ** [collections.deque] with [maxlen] *)

Section Deque.

Context {A : Type}.

Record deque := { maxlen : nat; items : list A }.

Definition deque_new (n : nat) : deque := {| maxlen := n; items := [] |}.

(** [deque.append]: the item is added on the right and, when the deque
    then holds more than [maxlen] items, one is dropped from the left. *)
Definition deque_append (d : deque) (x : A) : deque :=
  let l := items d ++ [x] in
  {| maxlen := maxlen d;
     items := if (maxlen d <? length l)%nat then tail l else l |}.

Definition pushes (n : nat) (xs : list A) : deque :=
  fold_left deque_append xs (deque_new n).

(** The last [n] elements of a list, in order. *)
Definition last_n (n : nat) (xs : list A) : list A :=
  drop (length xs - n) xs.

End Deque.

Arguments deque A : clear implicits.

(** ** Readings and their source

    [random.uniform(a, b)] is [a + (b - a) * random()], where [random()]
    draws from [0, 1); [round(x, n)] rounds to [n] decimals, ties to
    even.  The draw and the clock are inputs of the model.  A reading
    is the dict [{"Temp": temp, "Timestamp": timestamp}]; its
    temperature is a Python float that is always finite, a rational
    here.  The sum and the product of [uniform] are exact here and
    rounded to binary64 in Python: for a draw next to a tie of [round]
    the two readings can be neighbouring tenths. *)

Record reading := { Temp : Q; Timestamp : string }.

Record env := { random : Q; now : string }.

Definition uniform (a b : Q) (u : Q) : Q := (a + (b - a) * u)%Q.

Definition round_half_even (x : Q) : Z :=
  let f := Qfloor x in
  match Qcompare (x - inject_Z f)%Q (1 # 2)%Q with
  | Lt => f
  | Gt => (f + 1)%Z
  | Eq => if Z.even f then f else (f + 1)%Z
  end.

Definition round (x : Q) (ndigits : nat) : Q :=
  let p := inject_Z (10 ^ Z.of_nat ndigits) in
  (inject_Z (round_half_even (x * p)) / p)%Q.

(** ** pandas: typed columns and data frames *)

(** A datetime64 value is written as what it was converted from: the
    text of a timestamp, or a number of nanoseconds since the epoch. *)
Inductive datetime :=
| Parsed (text : string)
| FromEpoch (ns : pyfloat).

Inductive column :=
| FloatCol (v : list pyfloat)       (* dtype float64 *)
| ObjectCol (v : list string)       (* dtype object, holding str *)
| DatetimeCol (v : list datetime).  (* dtype datetime64 *)

Definition col_len (c : column) : nat :=
  match c with
  | FloatCol v => length v
  | ObjectCol v => length v
  | DatetimeCol v => length v
  end.

Record DataFrame := { columns : list (string * column); index : nat }.

(** The temperatures of the readings as the float64 values pandas makes
    of them. *)
Definition temps (rows : list reading) : list pyfloat :=
  map (fun r => Finite (Temp r)) rows.

(** [pd.DataFrame(rows)] for a sequence of [{"Temp":_, "Timestamp":_}]
    dicts: one column per key, in key order; no rows gives a frame with
    no columns at all. *)
Definition pd_DataFrame (rows : list reading) : DataFrame :=
  match rows with
  | [] => {| columns := []; index := 0 |}
  | _ => {| columns := [("Temp", FloatCol (temps rows));
                        ("Timestamp", ObjectCol (map Timestamp rows))];
            index := length rows |}
  end.

(** [len(df)] *)
Definition len (t : DataFrame) : nat := index t.

(** [df.empty]: some axis has length 0. *)
Definition empty (t : DataFrame) : bool :=
  (length (columns t) =? 0)%nat || (index t =? 0)%nat.

Fixpoint assoc_get (k : string) (l : list (string * column)) : option column :=
  match l with
  | [] => None
  | (k', c) :: l' => if String.eqb k k' then Some c else assoc_get k l'
  end.

Fixpoint assoc_set (k : string) (c : column) (l : list (string * column))
  : list (string * column) :=
  match l with
  | [] => [(k, c)]
  | (k', c') :: l' =>
      if String.eqb k k' then (k, c) :: l' else (k', c') :: assoc_set k c l'
  end.

(** [df[key]] *)
Definition getitem (t : DataFrame) (key : string) : result column :=
  match assoc_get key (columns t) with
  | Some c => Ok c
  | None => Raise (KeyError key)
  end.

(** [df[key] = values]: an existing column is replaced where it stands, a
    new one is added last.  The values must be as many as the rows.  (On
    a frame whose index is empty pandas grows the index instead; the
    application only assigns inside [if not df.empty].) *)
Definition setitem (t : DataFrame) (key : string) (c : column) : result DataFrame :=
  if (col_len c =? index t)%nat
  then Ok {| columns := assoc_set key c (columns t); index := index t |}
  else Raise (ValueError "Length of values does not match length of index").

(** [pd.to_datetime(series)].  The text of the application's timestamps
    is written by [strftime], so parsing it does not fail. *)
Definition to_datetime (c : column) : column :=
  match c with
  | ObjectCol v => DatetimeCol (map Parsed v)
  | DatetimeCol v => DatetimeCol v
  | FloatCol v => DatetimeCol (map FromEpoch v)
  end.

(** [series > k] and [series <= k] for a number [k] *)
Definition series_gt (c : column) (k : pyfloat) : result (list bool) :=
  match c with
  | FloatCol v => Ok (map (fun x => Float.gtb x k) v)
  | _ => Raise (TypeError "'>' not supported for this dtype and 'int'")
  end.

Definition series_le (c : column) (k : pyfloat) : result (list bool) :=
  match c with
  | FloatCol v => Ok (map (fun x => Float.leb x k) v)
  | _ => Raise (TypeError "'<=' not supported for this dtype and 'int'")
  end.

Fixpoint mask_list {A} (m : list bool) (l : list A) : list A :=
  match m, l with
  | b :: m', x :: l' => if b then x :: mask_list m' l' else mask_list m' l'
  | _, _ => []
  end.

Definition mask_col (m : list bool) (c : column) : column :=
  match c with
  | FloatCol v => FloatCol (mask_list m v)
  | ObjectCol v => ObjectCol (mask_list m v)
  | DatetimeCol v => DatetimeCol (mask_list m v)
  end.

(** [df[mask]]: the rows where the boolean mask holds. *)
Definition getrows (t : DataFrame) (m : list bool) : result DataFrame :=
  if (length m =? index t)%nat
  then Ok {| columns := map (fun kc => (fst kc, mask_col m (snd kc))) (columns t);
             index := length (filter (fun b => b = true) m) |}
  else Raise (ValueError "Item wrong length").

(** ** scipy: [stats.linregress]

    Of the five values returned the application uses [slope] and
    [intercept]; [r_value], [p_value] and [std_err] need square roots and
    the t distribution and are left out.  The arithmetic is that of the
    rationals: a value stands for NumPy's binary64 result up to its
    rounding error.  What is proved of these values below is which of
    them are numbers and which are NaN, not their digits. *)

Record LinregressResult := { slope : pyfloat; intercept : pyfloat }.

Definition asarray (c : column) : result (list pyfloat) :=
  match c with
  | FloatCol v => Ok v
  | _ => Raise (TypeError "unsupported operand type(s)")
  end.

Definition amax (x : list Z) : Z := foldr Z.max (hd 0%Z x) x.
Definition amin (x : list Z) : Z := foldr Z.min (hd 0%Z x) x.

(** The arithmetic of [linregress], once its inputs are accepted. *)
Definition least_squares (x y : list pyfloat) : LinregressResult :=
  let xmean := Float.mean x in
  let ymean := Float.mean y in
  (* ssxm = mean( (x-mean(x))^2 ),  ssxym = mean( (x-mean(x)) * (y-mean(y)) ) *)
  let ssxm :=
    Float.mean (map (fun xi => Float.mul (Float.sub xi xmean) (Float.sub xi xmean)) x) in
  let ssxym :=
    Float.mean (zip_with (fun xi yi => Float.mul (Float.sub xi xmean) (Float.sub yi ymean)) x y) in
  let slope := Float.div ssxym ssxm in
  let intercept := Float.sub ymean (Float.mul slope xmean) in
  {| slope := slope; intercept := intercept |}.

Definition linregress (x_vals : list Z) (y_vals : column) : result LinregressResult :=
  match asarray y_vals with
  | Raise e => Raise e
  | Ok y =>
      let x := map Float.of_Z x_vals in
      if (length x =? 0)%nat || (length y =? 0)%nat
      then Raise (ValueError "Inputs must not be empty.")
      else if (amax x_vals =? amin x_vals)%Z && (1 <? length x)%nat
      then Raise (ValueError
        "Cannot calculate a linear regression if all x values are identical")
      else if negb (length x =? length y)%nat
      then Raise (ValueError "all the input array dimensions must match")
      else Ok (least_squares x y)
  end.

(** ** The session: heap, reactive value, reactive calc

    The deque and the data frames are mutable Python objects, shared by
    reference.  The heap maps locations to objects; the reactive value
    holds the location of the one deque, and the tuple returned by
    [reactive_calc_combined] holds locations, not copies. *)

Definition loc := nat.

Inductive obj :=
| ODeque (d : deque reading)
| OFrame (t : DataFrame).

(** The tuple [(deque_snapshot, df, latest_dictionary_entry)]. *)
Record combined := {
  deque_snapshot : loc;
  df : loc;
  latest_dictionary_entry : reading
}.

(** [calc] is the cache of the [@reactive.calc]: [None] before the first
    execution and after an invalidation.  [timer] tells whether an
    [invalidate_later] is pending. *)
Record session := {
  heap : gmap loc obj;
  reactive_value_wrapper : loc;
  calc : option combined;
  timer : bool
}.

Definition UPDATE_INTERVAL_SECS : nat := 1.
Definition DEQUE_SIZE : nat := 10.

(** [reactive_value_wrapper = reactive.value(deque(maxlen=DEQUE_SIZE))] *)
Definition init : session :=
  {| heap := {[ 0 := ODeque (deque_new DEQUE_SIZE) ]};
     reactive_value_wrapper := 0;
     calc := None;
     timer := false |}.

(** A computation on the session that may raise. *)
Definition M (A : Type) : Type := session -> result A * session.

Definition raise {A} (e : exn) : M A := fun s => (Raise e, s).
Definition lift {A} (r : result A) : M A := fun s => (r, s).

#[global] Instance M_ret : MRet M := fun A a s => (Ok a, s).
#[global] Instance M_bind : MBind M := fun A B f m s =>
  match m s with
  | (Ok a, s') => f a s'
  | (Raise e, s') => (Raise e, s')
  end.

Definition with_heap (h : gmap loc obj) (s : session) : session :=
  {| heap := h; reactive_value_wrapper := reactive_value_wrapper s;
     calc := calc s; timer := timer s |}.

Definition with_calc (c : option combined) (s : session) : session :=
  {| heap := heap s; reactive_value_wrapper := reactive_value_wrapper s;
     calc := c; timer := timer s |}.

Definition with_timer (b : bool) (s : session) : session :=
  {| heap := heap s; reactive_value_wrapper := reactive_value_wrapper s;
     calc := calc s; timer := b |}.

(** A location that holds no object of the expected kind cannot be
    reached from Python; the model reports it as a [TypeError]. *)
Definition load_deque (l : loc) : M (deque reading) :=
  fun s => match heap s !! l with
           | Some (ODeque d) => (Ok d, s)
           | _ => (Raise (TypeError "not a deque"), s)
           end.

Definition load_frame (l : loc) : M DataFrame :=
  fun s => match heap s !! l with
           | Some (OFrame t) => (Ok t, s)
           | _ => (Raise (TypeError "not a DataFrame"), s)
           end.

Definition store (l : loc) (o : obj) : M unit :=
  fun s => (Ok tt, with_heap (<[l := o]> (heap s)) s).

Definition alloc (o : obj) : M loc :=
  fun s => let l := fresh (dom (heap s)) in
           (Ok l, with_heap (<[l := o]> (heap s)) s).

(** [reactive_value_wrapper.get()] *)
Definition reactive_value_get : M loc :=
  fun s => (Ok (reactive_value_wrapper s), s).

(** [reactive.invalidate_later(secs)]: arms the timer that will
    invalidate the calc. *)
Definition invalidate_later (secs : nat) : M unit :=
  fun s => (Ok tt, with_timer true s).

(** The body of [reactive_calc_combined]. *)
Definition reactive_calc_body (e : env) : M combined :=
  invalidate_later UPDATE_INTERVAL_SECS ;;
  let temp := round (uniform 17 23 (random e)) 1 in
  let timestamp := now e in
  let new_dictionary_entry := {| Temp := temp; Timestamp := timestamp |} in
  l ← reactive_value_get ;
  d ← load_deque l ;
  store l (ODeque (deque_append d new_dictionary_entry)) ;;
  deque_snapshot ← reactive_value_get ;
  d' ← load_deque deque_snapshot ;
  df ← alloc (OFrame (pd_DataFrame (items d'))) ;
  let latest_dictionary_entry := new_dictionary_entry in
  mret {| deque_snapshot := deque_snapshot; df := df;
          latest_dictionary_entry := latest_dictionary_entry |}.

(** [@reactive.calc()]: a call returns the cached value when there is
    one, and executes the body (and caches its value) otherwise. *)
Definition reactive_calc_combined (e : env) : M combined :=
  fun s => match calc s with
           | Some r => (Ok r, s)
           | None =>
               match reactive_calc_body e s with
               | (Ok r, s') => (Ok r, with_calc (Some r) s')
               | (Raise x, s') => (Raise x, s')
               end
           end.

(** The pending timer fires: the calc is invalidated.  Nothing is
    executed; the body runs again when the calc is next called. *)
Definition timer_fire (s : session) : session :=
  if timer s then with_timer false (with_calc None s) else s.

(** ** The display functions *)

#[global] Instance result_ret : MRet result := fun A a => Ok a.
#[global] Instance result_bind : MBind result := fun A B f r =>
  match r with
  | Ok a => f a
  | Raise e => Raise e
  end.

Inductive trace :=
| Scatter (x y : column)
| Pie (labels : list string) (values : list nat).

Definition Figure := list trace.

Inductive rendered :=
| TempText (temp : Q)              (* f"{temp} C" *)
| TimeText (timestamp : string)    (* the timestamp, reformatted *)
| DataGrid (data : loc)
| Plotly (fig : Figure).

(** [px.scatter(df, x=.., y=..)] *)
Definition px_scatter (t : DataFrame) (x y : string) : result Figure :=
  match assoc_get x (columns t), assoc_get y (columns t) with
  | Some cx, Some cy => Ok [Scatter cx cy]
  | _, _ => Raise (ValueError "not the name of a column in 'data_frame'")
  end.

(** [fig.add_scatter(x=.., y=..)] *)
Definition add_scatter (fig : Figure) (x y : column) : Figure :=
  fig ++ [Scatter x y].

Definition frame_getitem (l : loc) (key : string) : M column :=
  t ← load_frame l ; lift (getitem t key).

Definition frame_setitem (l : loc) (key : string) (c : column) : M unit :=
  t ← load_frame l ;
  t' ← lift (setitem t key c) ;
  store l (OFrame t').

Definition display_temp (e : env) : M rendered :=
  r ← reactive_calc_combined e ;
  mret (TempText (Temp (latest_dictionary_entry r))).

Definition display_time (e : env) : M rendered :=
  r ← reactive_calc_combined e ;
  let timestamp := Timestamp (latest_dictionary_entry r) in
  mret (TimeText timestamp).

Definition display_df (e : env) : M rendered :=
  r ← reactive_calc_combined e ;
  mret (DataGrid (df r)).

(** The regression of [display_plot]: x is [0 .. len(df) - 1], y is the
    [Temp] column. *)
Definition x_vals (t : DataFrame) : list Z :=
  let sequence := seq 0 (len t) in
  map Z.of_nat sequence.

Definition regress (t : DataFrame) : result LinregressResult :=
  y_vals ← getitem t "Temp" ;
  linregress (x_vals t) y_vals.

Definition best_fit_line (reg : LinregressResult) (xs : list Z) : column :=
  FloatCol (map (fun x => Float.add (Float.mul (slope reg) (Float.of_Z x))
                                    (intercept reg)) xs).

Definition display_plot (e : env) : M rendered :=
  r ← reactive_calc_combined e ;
  let df := df r in
  t ← load_frame df ;
  fig ← (if negb (empty t) then
           ts ← frame_getitem df "Timestamp" ;
           frame_setitem df "Timestamp" (to_datetime ts) ;;
           t1 ← load_frame df ;
           fig ← lift (px_scatter t1 "Timestamp" "Temp") ;
           reg ← lift (regress t1) ;
           frame_setitem df "best_fit_line" (best_fit_line reg (x_vals t1)) ;;
           x ← frame_getitem df "Timestamp" ;
           y ← frame_getitem df "best_fit_line" ;
           mret (Some (add_scatter fig x y))
         else mret None) ;
  match fig with
  | Some fig => mret (Plotly fig)
  | None => raise (UnboundLocalError "fig")
  end.

(** The trend as [display_plot] computes it: none for an empty frame,
    the regression otherwise. *)
Definition trend (t : DataFrame) : result (option LinregressResult) :=
  if negb (empty t) then reg ← regress t ; mret (Some reg) else mret None.

(** [len(df[df['Temp'] > 20])] and [len(df[df['Temp'] <= 20])] *)
Definition threshold : pyfloat := Float.of_Z 20.

Definition over_20 (t : DataFrame) : result nat :=
  c ← getitem t "Temp" ;
  m ← series_gt c threshold ;
  rows ← getrows t m ;
  mret (len rows).

Definition under_20 (t : DataFrame) : result nat :=
  c ← getitem t "Temp" ;
  m ← series_le c threshold ;
  rows ← getrows t m ;
  mret (len rows).

Definition display_pie_chart (e : env) : M rendered :=
  r ← reactive_calc_combined e ;
  t ← load_frame (df r) ;
  over ← lift (over_20 t) ;
  under ← lift (under_20 t) ;
  mret (Plotly [Pie ["Days over 20 Celsius"; "Days under 20 Celsius"]
                    [over; under]]).

(** ** Sessions as event traces *)

Inductive consumer :=
| DisplayTemp | DisplayTime | DisplayDf | DisplayPlot | DisplayPieChart.

Definition call (c : consumer) : env -> M rendered :=
  match c with
  | DisplayTemp => display_temp
  | DisplayTime => display_time
  | DisplayDf => display_df
  | DisplayPlot => display_plot
  | DisplayPieChart => display_pie_chart
  end.

Inductive event :=
| TimerFire
| Render (c : consumer) (e : env).

Definition step (s : session) (ev : event) : session :=
  match ev with
  | TimerFire => timer_fire s
  | Render c e => snd (call c e s)
  end.

Definition run (evs : list event) (s : session) : session :=
  fold_left step evs s.

(** The deque of the session, and the frame of a combined result. *)
Definition buffer (s : session) : list reading :=
  match heap s !! reactive_value_wrapper s with
  | Some (ODeque d) => items d
  | _ => []
  end.

Definition deref_deque (s : session) (l : loc) : option (list reading) :=
  match heap s !! l with
  | Some (ODeque d) => Some (items d)
  | _ => None
  end.

Definition deref_frame (s : session) (l : loc) : option DataFrame :=
  match heap s !! l with
  | Some (OFrame t) => Some t
  | _ => None
  end.

(** * Definitions for the statements *)

(** ** What the calc computes *)

(** The reading that the body of the calc builds from a draw and the
    clock. *)
Definition reading_of (e : env) : reading :=
  {| Temp := round (uniform 17 23 (random e)) 1; Timestamp := now e |}.

(** The session after the body of the calc has run on a deque [d]. *)
Definition computed (e : env) (d : deque reading) (s : session) : combined * session :=
  let d' := deque_append d (reading_of e) in
  let h1 := <[reactive_value_wrapper s := ODeque d']> (heap s) in
  let l := fresh (dom h1) in
  let r := {| deque_snapshot := reactive_value_wrapper s; df := l;
              latest_dictionary_entry := reading_of e |} in
  (r, {| heap := <[l := OFrame (pd_DataFrame (items d'))]> h1;
         reactive_value_wrapper := reactive_value_wrapper s;
         calc := Some r; timer := true |}).

(** ** Frames built from a buffer *)

(** The timestamps of the readings, parsed. *)
Definition datetimes (b : list reading) : list datetime :=
  map (fun r => Parsed (Timestamp r)) b.

(** [t] shows the readings [b]: one row each, the temperatures in the
    float column [Temp], the timestamps in [Timestamp] as text or, once
    [display_plot] has run, as datetimes. *)
Definition frame_of (b : list reading) (t : DataFrame) : Prop :=
  b ≠ [] ∧
  index t = length b ∧
  assoc_get "Temp" (columns t) = Some (FloatCol (temps b)) ∧
  (assoc_get "Timestamp" (columns t) = Some (ObjectCol (map Timestamp b)) ∨
   assoc_get "Timestamp" (columns t) = Some (DatetimeCol (datetimes b))).

(** ** The session invariant *)

Record wf (s : session) : Prop := {
  wf_loc : reactive_value_wrapper s = 0;
  wf_deque : ∃ d, heap s !! reactive_value_wrapper s = Some (ODeque d) ∧
                  maxlen d = DEQUE_SIZE ∧
                  (length (items d) <= DEQUE_SIZE)%nat;
  wf_calc : ∀ r, calc s = Some r →
      timer s = true ∧
      deque_snapshot r = reactive_value_wrapper s ∧
      last (buffer s) = Some (latest_dictionary_entry r) ∧
      ∃ t, heap s !! df r = Some (OFrame t) ∧ frame_of (buffer s) t
}.

(** ** What the display functions return and leave behind *)

(** [df[k] = c], the lengths agreeing. *)
Definition assigned (t : DataFrame) (k : string) (c : column) : DataFrame :=
  {| columns := assoc_set k c (columns t); index := index t |}.

(** The frame as [display_plot] leaves it: [Timestamp] holds datetimes
    and [best_fit_line] the fitted values. *)
Definition plotted (b : list reading) (t : DataFrame) : DataFrame :=
  let t1 := {| columns := assoc_set "Timestamp" (DatetimeCol (datetimes b)) (columns t);
               index := index t |} in
  let reg := least_squares (map Float.of_Z (x_vals t1)) (temps b) in
  {| columns := assoc_set "best_fit_line" (best_fit_line reg (x_vals t1)) (columns t1);
     index := index t1 |}.

(** The figure that [display_plot] returns. *)
Definition plotted_figure (b : list reading) (t : DataFrame) : Figure :=
  let ts := DatetimeCol (datetimes b) in
  let reg := least_squares (map Float.of_Z (x_vals t)) (temps b) in
  [Scatter ts (FloatCol (temps b)); Scatter ts (best_fit_line reg (x_vals t))].

Definition count_true (m : list bool) : nat := length (filter (fun b => b = true) m).

(** The figure that [display_pie_chart] returns. *)
Definition pie_figure (b : list reading) : Figure :=
  [Pie ["Days over 20 Celsius"; "Days under 20 Celsius"]
       [count_true (map (fun x => Float.gtb x threshold) (temps b));
        count_true (map (fun x => Float.leb x threshold) (temps b))]].

(** What a display function returns and leaves behind when the calc is
    cached. *)
Definition rendered_of (c : consumer) (r : combined) (b : list reading)
    (t : DataFrame) : rendered :=
  match c with
  | DisplayTemp => TempText (Temp (latest_dictionary_entry r))
  | DisplayTime => TimeText (Timestamp (latest_dictionary_entry r))
  | DisplayDf => DataGrid (df r)
  | DisplayPlot => Plotly (plotted_figure b t)
  | DisplayPieChart => Plotly (pie_figure b)
  end.

Definition left_by (c : consumer) (r : combined) (t : DataFrame) (s : session)
  : session :=
  match c with
  | DisplayPlot => with_heap (<[df r := OFrame (plotted (buffer s) t)]> (heap s)) s
  | _ => s
  end.

(** ** The deque along a session *)

Definition the_deque (s : session) : deque reading :=
  match heap s !! reactive_value_wrapper s with
  | Some (ODeque d) => d
  | _ => deque_new DEQUE_SIZE
  end.

(** The readings an event pulls from the source: one when a display
    function finds the calc without a cached value, none otherwise. *)
Definition pulled (s : session) (ev : event) : list reading :=
  match ev with
  | Render _ e => match calc s with None => [reading_of e] | Some _ => [] end
  | TimerFire => []
  end.

Fixpoint pulls (evs : list event) (s : session) : list reading :=
  match evs with
  | [] => []
  | ev :: evs' => pulled s ev ++ pulls evs' (step s ev)
  end.

Definition renders (l : list (consumer * env)) : list event :=
  map (fun ce => Render (fst ce) (snd ce)) l.

Definition is_plot (c : consumer) : bool :=
  match c with DisplayPlot => true | _ => false end.

(** ** Sample inputs *)

Definition sample_env : env :=
  {| random := 0; now := "2024-05-01 12:00:00" |}.

Definition degrees (z : Z) : reading :=
  {| Temp := inject_Z z; Timestamp := "2024-05-01 12:00:00" |}.

(** ** Comparisons of rationals, decided *)

#[global] Instance Qlt_decision (x y : Q) : Decision (x < y)%Q :=
  match Qlt_le_dec x y with
  | left H => left H
  | right H => right (Qle_not_lt _ _ H)
  end.

#[global] Instance Qle_decision (x y : Q) : Decision (x <= y)%Q :=
  match Qlt_le_dec y x with
  | left H => right (Qlt_not_le _ _ H)
  | right H => left H
  end.

(** ** The range of the readings *)

(** [random()] draws from [0, 1). *)
Definition draw_ok (e : env) : Prop := (0 <= random e)%Q ∧ (random e < 1)%Q.

Definition fair (ev : event) : Prop :=
  match ev with
  | Render _ e => draw_ok e
  | TimerFire => True
  end.

Definition in_range (x : Q) : Prop := (17 <= x)%Q ∧ (x <= 23)%Q.

(** ** The least-squares line

    The line in the words of the specification (its section 4.4), over
    the rationals. *)

Module OLS.

Definition total (l : list Q) : Q := foldr Qplus 0%Q l.
Definition mean (l : list Q) : Q := (total l / inject_Z (Z.of_nat (length l)))%Q.
Definition covariance (x y : list Q) : Q :=
  mean (zip_with (fun xi yi => (xi - mean x) * (yi - mean y))%Q x y).
Definition variance (x : list Q) : Q := covariance x x.
Definition slope (x y : list Q) : Q := (covariance x y / variance x)%Q.
Definition intercept (x y : list Q) : Q := (mean y - slope x y * mean x)%Q.

End OLS.

(** The x values of the regression: 0, 1, ..., n - 1. *)
Definition indices (n : nat) : list Q := map (fun i => inject_Z (Z.of_nat i)) (seq 0 n).

(** The sum and the mean as [Float.sum] and [Float.mean] compute them on
    finite values. *)
Definition qsum (l : list Q) : Q := fold_left Qplus l 0%Q.
Definition qmean (l : list Q) : Q := (qsum l / inject_Z (Z.of_nat (length l)))%Q.

(** * Definitions for the further properties *)

(** The number of firings of the timer among the events. *)
Fixpoint count_fires (evs : list event) : nat :=
  match evs with
  | [] => 0
  | TimerFire :: evs' => S (count_fires evs')
  | Render _ _ :: evs' => count_fires evs'
  end.

(** A float64 value that is a number. *)
Definition is_number (x : pyfloat) : bool :=
  match x with Finite _ => true | _ => false end.

(** A session whose cached tuple holds the frame of an empty deque.  The
    calc never leaves such a session; it is where the guards of the
    display functions would matter. *)
Definition session_with_empty_frame : session :=
  {| heap := <[1 := OFrame (pd_DataFrame [])]>
               {[ 0 := ODeque (deque_new DEQUE_SIZE) ]};
     reactive_value_wrapper := 0;
     calc := Some {| deque_snapshot := 0; df := 1;
                     latest_dictionary_entry := reading_of sample_env |};
     timer := true |}.

(** * Properties *)

(** ** The deque *)

Section DequeFacts.

Context {A : Type}.
Implicit Types (d : deque A) (xs : list A).

Lemma maxlen_append d x : maxlen (deque_append d x) = maxlen d.
Proof. reflexivity. Qed.

Lemma maxlen_fold xs d : maxlen (fold_left deque_append xs d) = maxlen d.
Proof.
  revert d. induction xs as [|x xs IH]; intros d; simpl; [done|].
  by rewrite IH, maxlen_append.
Qed.

Lemma maxlen_pushes n xs : maxlen (pushes n xs) = n.
Proof. unfold pushes. by rewrite maxlen_fold. Qed.

Lemma pushes_snoc n xs x :
  pushes n (xs ++ [x]) = deque_append (pushes n xs) x.
Proof. unfold pushes. by rewrite fold_left_app. Qed.

Lemma tail_drop xs : tail xs = drop 1 xs.
Proof. by destruct xs. Qed.

Lemma pushes_items n xs :
  items (pushes n xs) = last_n (min (length xs) n) xs.
Proof.
  induction xs as [|x xs IH] using rev_ind; [done|].
  rewrite pushes_snoc. unfold deque_append; simpl.
  rewrite maxlen_pushes, IH. unfold last_n.
  rewrite !length_app, length_drop; simpl.
  destruct (Nat.ltb_spec n (length xs - (length xs - length xs `min` n) + 1)) as [Hlt|Hge].
  - rewrite tail_drop, <- drop_app_le by lia.
    rewrite drop_drop. f_equal. lia.
  - rewrite <- drop_app_le by lia. f_equal. lia.
Qed.

Lemma pushes_length n xs : (length (items (pushes n xs)) <= n)%nat.
Proof. rewrite pushes_items. unfold last_n. rewrite length_drop. lia. Qed.

End DequeFacts.

(** ** Association lists of columns *)

Lemma assoc_get_set_eq k c l : assoc_get k (assoc_set k c l) = Some c.
Proof.
  induction l as [|[k' c'] l IH]; simpl.
  - by rewrite String.eqb_refl.
  - destruct (String.eqb k k') eqn:E; simpl; rewrite ?String.eqb_refl, ?E; done.
Qed.

Lemma assoc_get_set_ne k k' c l :
  k ≠ k' → assoc_get k' (assoc_set k c l) = assoc_get k' l.
Proof.
  intros Hne. induction l as [|[k1 c1] l IH]; simpl.
  - destruct (String.eqb_spec k' k); congruence.
  - destruct (String.eqb_spec k k1) as [->|Hk]; simpl.
    + destruct (String.eqb_spec k' k1); congruence.
    + destruct (String.eqb_spec k' k1); congruence.
Qed.

Lemma assoc_set_id k c l : assoc_get k l = Some c → assoc_set k c l = l.
Proof.
  induction l as [|[k' c'] l IH]; simpl; [done|].
  destruct (String.eqb_spec k k') as [->|Hk].
  - by intros [= ->].
  - intros H. by rewrite IH.
Qed.

(** ** The reactive calc *)

Lemma reactive_calc_body_eq e d s :
  heap s !! reactive_value_wrapper s = Some (ODeque d) →
  reactive_calc_body e s =
    (Ok (fst (computed e d s)), with_calc (calc s) (snd (computed e d s))).
Proof.
  intros Hd. unfold reactive_calc_body, computed, mbind, M_bind, mret, M_ret,
    invalidate_later, reactive_value_get, load_deque, store, alloc,
    with_timer, with_heap, with_calc; simpl.
  rewrite Hd; simpl. by rewrite lookup_insert_eq.
Qed.

Lemma reactive_calc_miss e d s :
  calc s = None →
  heap s !! reactive_value_wrapper s = Some (ODeque d) →
  reactive_calc_combined e s = (Ok (fst (computed e d s)), snd (computed e d s)).
Proof.
  intros Hc Hd. unfold reactive_calc_combined. rewrite Hc.
  by rewrite (reactive_calc_body_eq e d s Hd).
Qed.

Lemma reactive_calc_hit e r s :
  calc s = Some r → reactive_calc_combined e s = (Ok r, s).
Proof. intros Hc. unfold reactive_calc_combined. by rewrite Hc. Qed.

(** ** One push *)

Lemma deque_append_items {A} (d : deque A) x :
  (length (items d) <= maxlen d)%nat →
  items (deque_append d x) =
    if (length (items d) <? maxlen d)%nat then items d ++ [x]
    else tail (items d ++ [x]).
Proof.
  intros Hle. unfold deque_append; simpl. rewrite length_app; simpl.
  destruct (Nat.ltb_spec (maxlen d) (length (items d) + 1)),
           (Nat.ltb_spec (length (items d)) (maxlen d)); (done || lia).
Qed.

Lemma deque_append_length {A} (d : deque A) x :
  (length (items d) <= maxlen d)%nat →
  (length (items (deque_append d x)) <= maxlen d)%nat.
Proof.
  intros Hle. rewrite deque_append_items by done.
  destruct (Nat.ltb_spec (length (items d)) (maxlen d)).
  - rewrite length_app; simpl; lia.
  - rewrite tail_drop, length_drop, length_app; simpl; lia.
Qed.

Lemma deque_append_last {A} (d : deque A) x :
  (0 < maxlen d)%nat → last (items (deque_append d x)) = Some x.
Proof.
  intros Hpos. unfold deque_append; simpl. rewrite length_app; simpl.
  destruct (Nat.ltb_spec (maxlen d) (length (items d) + 1)).
  - destruct (items d) as [|a l] eqn:E; simpl in *; [lia|].
    by rewrite last_snoc.
  - by rewrite last_snoc.
Qed.

Lemma deque_append_nonempty {A} (d : deque A) x :
  (0 < maxlen d)%nat → items (deque_append d x) ≠ [].
Proof.
  intros Hpos Hnil. pose proof (deque_append_last d x Hpos) as Hl.
  by rewrite Hnil in Hl.
Qed.

(** ** Frames and the session invariant *)

Lemma length_temps b : length (temps b) = length b.
Proof. apply length_map. Qed.

Lemma temps_not_nan b : Forall (fun x => Float.is_nan x = false) (temps b).
Proof. apply Forall_map. by apply Forall_true. Qed.

Lemma frame_of_built b : b ≠ [] → frame_of b (pd_DataFrame b).
Proof.
  intros Hb. destruct b as [|r b]; [done|]. repeat split; auto.
Qed.

Lemma frame_of_not_empty b t : frame_of b t → empty t = false.
Proof.
  intros (Hb & Hi & HT & _). unfold empty. rewrite Hi.
  destruct (columns t); [done|]. destruct b; [done|]. reflexivity.
Qed.

Lemma wf_init : wf init.
Proof.
  split; [done| |done].
  exists (deque_new DEQUE_SIZE). split; [|split; [done|simpl; lia]].
  unfold init; simpl. by rewrite lookup_singleton_eq.
Qed.

Lemma buffer_eq s d :
  heap s !! reactive_value_wrapper s = Some (ODeque d) → buffer s = items d.
Proof. intros H. unfold buffer. by rewrite H. Qed.

Lemma computed_fresh e d s :
  df (fst (computed e d s)) ≠ reactive_value_wrapper s.
Proof.
  unfold computed; simpl. intros Heq.
  pose proof (is_fresh (dom (<[reactive_value_wrapper s:=ODeque (deque_append d (reading_of e))]> (heap s)))) as Hf.
  rewrite Heq in Hf. apply Hf. rewrite dom_insert_L. set_solver.
Qed.

Lemma computed_buffer e d s :
  buffer (snd (computed e d s)) = items (deque_append d (reading_of e)).
Proof.
  apply buffer_eq. simpl.
  rewrite lookup_insert_ne by apply computed_fresh.
  by rewrite lookup_insert_eq.
Qed.

Lemma wf_computed e d s :
  wf s → heap s !! reactive_value_wrapper s = Some (ODeque d) →
  wf (snd (computed e d s)).
Proof.
  intros [Hl (d0 & Hd0 & Hm & Hlen) _] Hd.
  assert (d0 = d) as -> by congruence.
  assert (Hpos : (0 < maxlen d)%nat) by (rewrite Hm; unfold DEQUE_SIZE; lia).
  split.
  - done.
  - exists (deque_append d (reading_of e)). split; [|split].
    + simpl. rewrite lookup_insert_ne by apply computed_fresh.
      by rewrite lookup_insert_eq.
    + by rewrite maxlen_append.
    + rewrite <- Hm. apply deque_append_length. by rewrite Hm.
  - intros r Hr. simpl in Hr. injection Hr as <-.
    rewrite computed_buffer. split; [done|]. split; [done|].
    split; [by apply deque_append_last|].
    eexists. split; [simpl; by rewrite lookup_insert_eq|].
    apply frame_of_built. by apply deque_append_nonempty.
Qed.

(** ** The regression accepts the frames of the session *)

Lemma foldr_max_ge (x : list Z) a z : z ∈ x → (z <= foldr Z.max a x)%Z.
Proof.
  induction x as [|y x IH]; intros Hin; [by apply elem_of_nil in Hin|].
  apply elem_of_cons in Hin as [->|Hin]; simpl; [lia|].
  specialize (IH Hin). lia.
Qed.

Lemma foldr_min_le (x : list Z) a z : z ∈ x → (foldr Z.min a x <= z)%Z.
Proof.
  induction x as [|y x IH]; intros Hin; [by apply elem_of_nil in Hin|].
  apply elem_of_cons in Hin as [->|Hin]; simpl; [lia|].
  specialize (IH Hin). lia.
Qed.

Lemma range_spread n :
  (2 <= n)%nat → amax (map Z.of_nat (seq 0 n)) ≠ amin (map Z.of_nat (seq 0 n)).
Proof.
  intros Hn. destruct n as [|[|n]]; [lia..|].
  set (x := map Z.of_nat (seq 0 (S (S n)))).
  assert (H0 : 0%Z ∈ x) by (subst x; apply list_elem_of_In; simpl; auto).
  assert (H1 : 1%Z ∈ x) by (subst x; apply list_elem_of_In; simpl; auto).
  pose proof (foldr_max_ge x (hd 0%Z x) 1%Z H1).
  pose proof (foldr_min_le x (hd 0%Z x) 0%Z H0).
  unfold amax, amin. lia.
Qed.

Lemma linregress_ok n (y : list pyfloat) :
  (0 < n)%nat → length y = n →
  linregress (map Z.of_nat (seq 0 n)) (FloatCol y)
  = Ok (least_squares (map Float.of_Z (map Z.of_nat (seq 0 n))) y).
Proof.
  intros Hn Hy. unfold linregress; simpl asarray.
  rewrite !length_map, length_seq, Hy.
  destruct (Nat.eqb_spec n 0); [lia|]. simpl.
  rewrite Nat.eqb_refl; simpl.
  destruct (Nat.ltb_spec 1 n) as [H1|H1].
  - destruct (Z.eqb_spec (amax (map Z.of_nat (seq 0 n))) (amin (map Z.of_nat (seq 0 n)))) as [E|E];
      [by apply range_spread in E|done].
  - by rewrite andb_false_r.
Qed.

Lemma regress_ok b t :
  frame_of b t →
  regress t = Ok (least_squares (map Float.of_Z (x_vals t)) (temps b)).
Proof.
  intros (Hb & Hi & HT & _). unfold regress, getitem. rewrite HT.
  unfold mbind, result_bind, x_vals, len. rewrite Hi.
  apply linregress_ok; [destruct b; [done|simpl; lia]|apply length_temps].
Qed.

(** ** The display functions on a cached calc *)

Lemma M_bind_ok {A B} (m : M A) (f : A → M B) s a s' :
  m s = (Ok a, s') → (m ≫= f) s = f a s'.
Proof. intros H. unfold mbind, M_bind. by rewrite H. Qed.

Lemma load_frame_ok l t s :
  heap s !! l = Some (OFrame t) → load_frame l s = (Ok t, s).
Proof. intros H. unfold load_frame. by rewrite H. Qed.

Lemma frame_getitem_ok l t k c s :
  heap s !! l = Some (OFrame t) → assoc_get k (columns t) = Some c →
  frame_getitem l k s = (Ok c, s).
Proof.
  intros H Hk. unfold frame_getitem.
  rewrite (M_bind_ok _ _ _ _ _ (load_frame_ok _ _ _ H)).
  unfold lift, getitem. by rewrite Hk.
Qed.

Lemma frame_setitem_ok l t k c s :
  heap s !! l = Some (OFrame t) → col_len c = index t →
  frame_setitem l k c s =
    (Ok tt, with_heap (<[l := OFrame (assigned t k c)]> (heap s)) s).
Proof.
  intros H Hlen. unfold frame_setitem.
  rewrite (M_bind_ok _ _ _ _ _ (load_frame_ok _ _ _ H)).
  unfold setitem. rewrite Hlen, Nat.eqb_refl. reflexivity.
Qed.

Lemma display_plot_hit e s r t :
  calc s = Some r →
  heap s !! df r = Some (OFrame t) →
  frame_of (buffer s) t →
  display_plot e s =
    (Ok (Plotly (plotted_figure (buffer s) t)),
     with_heap (<[df r := OFrame (plotted (buffer s) t)]> (heap s)) s).
Proof.
  intros Hc Ht Hf. pose proof Hf as (Hb & Hi & HT & HTs).
  unfold display_plot.
  rewrite (M_bind_ok _ _ _ _ _ (reactive_calc_hit e r s Hc)).
  rewrite (M_bind_ok _ _ _ _ _ (load_frame_ok _ _ _ Ht)).
  rewrite (frame_of_not_empty _ _ Hf). simpl negb. cbv iota.
  set (t1 := assigned t "Timestamp" (DatetimeCol (datetimes (buffer s)))).
  set (s1 := with_heap (<[df r := OFrame t1]> (heap s)) s).
  assert (Hs1 : heap s1 !! df r = Some (OFrame t1)) by (simpl; by rewrite lookup_insert_eq).
  assert (Hf1 : frame_of (buffer s) t1).
  { repeat split; try done.
    - simpl. rewrite assoc_get_set_ne; done.
    - right. simpl. by rewrite assoc_get_set_eq. }
  set (reg := least_squares (map Float.of_Z (x_vals t1)) (temps (buffer s))).
  set (t2 := assigned t1 "best_fit_line" (best_fit_line reg (x_vals t1))).
  set (s2 := with_heap (<[df r := OFrame t2]> (heap s1)) s1).
  assert (Hs2 : heap s2 !! df r = Some (OFrame t2)) by (simpl; by rewrite lookup_insert_eq).
  assert (Hts : ∃ c, assoc_get "Timestamp" (columns t) = Some c ∧
                     to_datetime c = DatetimeCol (datetimes (buffer s))).
  { destruct HTs as [H|H]; eexists; (split; [exact H|]); [|done].
    unfold datetimes; simpl. by rewrite map_map. }
  destruct Hts as (c & Hc1 & Hc2).
  erewrite M_bind_ok; cycle 1.
  { erewrite M_bind_ok by (eapply frame_getitem_ok; [exact Ht|exact Hc1]).
    rewrite Hc2.
    erewrite M_bind_ok; cycle 1.
    { apply (frame_setitem_ok _ _ _ _ _ Ht). simpl. rewrite Hi. apply length_map. }
    fold t1. fold s1.
    erewrite M_bind_ok by (apply load_frame_ok; exact Hs1).
    erewrite M_bind_ok; cycle 1.
    { unfold lift, px_scatter. destruct Hf1 as (_ & _ & -> & _).
      simpl. rewrite assoc_get_set_eq. reflexivity. }
    erewrite M_bind_ok by (unfold lift; by rewrite (regress_ok _ _ Hf1)).
    fold reg.
    erewrite M_bind_ok; cycle 1.
    { apply (frame_setitem_ok _ _ _ _ _ Hs1). simpl.
      unfold x_vals, len. rewrite !length_map, length_seq. done. }
    fold t2. fold s2.
    erewrite M_bind_ok; cycle 1.
    { eapply frame_getitem_ok; [exact Hs2|]. simpl.
      rewrite assoc_get_set_ne by done. apply assoc_get_set_eq. }
    erewrite M_bind_ok; cycle 1.
    { eapply frame_getitem_ok; [exact Hs2|]. simpl. apply assoc_get_set_eq. }
    reflexivity. }
  cbv iota beta. unfold mret, M_ret. f_equal.
  subst s2 s1. unfold with_heap; simpl. f_equal. apply insert_insert_eq.
Qed.

(** ** Counting by the threshold *)

Lemma count_true_cons b m :
  count_true (b :: m) = ((if b then 1 else 0) + count_true m)%nat.
Proof.
  unfold count_true. destruct b.
  - by rewrite filter_cons_True.
  - by rewrite filter_cons_False.
Qed.

Lemma Qle_bool_false x y : Qle_bool x y = false ↔ (y < x)%Q.
Proof.
  rewrite <- not_true_iff_false, Qle_bool_iff. split.
  - apply Qnot_le_lt.
  - apply Qlt_not_le.
Qed.

Lemma gtb_leb_split x k :
  Float.is_nan x = false → Float.is_nan k = false →
  Float.leb x k = negb (Float.gtb x k).
Proof.
  destruct x as [x|s|], k as [k|t|]; try done; intros _ _;
    unfold Float.leb, Float.gtb, Float.ltb, Float.eqb.
  - rewrite negb_involutive. apply eq_true_iff_eq.
    rewrite orb_true_iff, negb_true_iff, Qle_bool_false, Qle_bool_iff, Qeq_bool_iff.
    rewrite Qle_lteq. done.
  - by destruct t.
  - by destruct s.
  - by destruct s, t.
Qed.

Lemma count_partition (v : list pyfloat) k :
  Forall (fun x => Float.is_nan x = false) v → Float.is_nan k = false →
  (count_true (map (fun x => Float.gtb x k) v)
   + count_true (map (fun x => Float.leb x k) v) = length v)%nat.
Proof.
  intros Hv Hk. induction Hv as [|x v Hx Hv IH]; [done|].
  simpl. rewrite !count_true_cons, (gtb_leb_split x k Hx Hk).
  destruct (Float.gtb x k); simpl; lia.
Qed.

Lemma gtb_threshold (v : Q) :
  Float.gtb (Finite v) threshold = true ↔ (20 < v)%Q.
Proof.
  unfold Float.gtb, Float.ltb, threshold, Float.of_Z.
  rewrite negb_true_iff. apply Qle_bool_false.
Qed.

Lemma leb_threshold (v : Q) :
  Float.leb (Finite v) threshold = true ↔ (v <= 20)%Q.
Proof.
  rewrite gtb_leb_split by done. rewrite negb_true_iff.
  rewrite <- not_true_iff_false, gtb_threshold. split.
  - apply Qnot_lt_le.
  - apply Qle_not_lt.
Qed.

Lemma count_over rows :
  count_true (map (fun x => Float.gtb x threshold) (temps rows))
  = length (filter (fun r => (20 < Temp r)%Q) rows).
Proof.
  induction rows as [|r rows IH]; [done|].
  change (temps (r :: rows)) with (Finite (Temp r) :: temps rows).
  rewrite map_cons, count_true_cons, IH.
  destruct (Float.gtb (Finite (Temp r)) threshold) eqn:E.
  - rewrite filter_cons_True; [done|]. by apply gtb_threshold.
  - rewrite filter_cons_False; [done|].
    rewrite <- gtb_threshold. congruence.
Qed.

Lemma count_under rows :
  count_true (map (fun x => Float.leb x threshold) (temps rows))
  = length (filter (fun r => (Temp r <= 20)%Q) rows).
Proof.
  induction rows as [|r rows IH]; [done|].
  change (temps (r :: rows)) with (Finite (Temp r) :: temps rows).
  rewrite map_cons, count_true_cons, IH.
  destruct (Float.leb (Finite (Temp r)) threshold) eqn:E.
  - rewrite filter_cons_True; [done|]. by apply leb_threshold.
  - rewrite filter_cons_False; [done|].
    rewrite <- leb_threshold. congruence.
Qed.

Lemma over_20_eq b t :
  frame_of b t →
  over_20 t = Ok (count_true (map (fun x => Float.gtb x threshold) (temps b))).
Proof.
  intros (Hb & Hi & HT & _). unfold over_20, getitem. rewrite HT.
  unfold mbind, result_bind, series_gt, getrows.
  rewrite length_map, length_temps, Hi, Nat.eqb_refl. reflexivity.
Qed.

Lemma under_20_eq b t :
  frame_of b t →
  under_20 t = Ok (count_true (map (fun x => Float.leb x threshold) (temps b))).
Proof.
  intros (Hb & Hi & HT & _). unfold under_20, getitem. rewrite HT.
  unfold mbind, result_bind, series_le, getrows.
  rewrite length_map, length_temps, Hi, Nat.eqb_refl. reflexivity.
Qed.

Lemma display_pie_chart_hit e s r t :
  calc s = Some r →
  heap s !! df r = Some (OFrame t) →
  frame_of (buffer s) t →
  display_pie_chart e s = (Ok (Plotly (pie_figure (buffer s))), s).
Proof.
  intros Hc Ht Hf. unfold display_pie_chart.
  rewrite (M_bind_ok _ _ _ _ _ (reactive_calc_hit e r s Hc)).
  rewrite (M_bind_ok _ _ _ _ _ (load_frame_ok _ _ _ Ht)).
  erewrite M_bind_ok by (unfold lift; by rewrite (over_20_eq _ _ Hf)).
  erewrite M_bind_ok by (unfold lift; by rewrite (under_20_eq _ _ Hf)).
  reflexivity.
Qed.

Lemma call_hit c e s r t :
  calc s = Some r →
  heap s !! df r = Some (OFrame t) →
  frame_of (buffer s) t →
  call c e s = (Ok (rendered_of c r (buffer s) t), left_by c r t s).
Proof.
  intros Hc Ht Hf. destruct c; simpl.
  - unfold display_temp. by rewrite (M_bind_ok _ _ _ _ _ (reactive_calc_hit e r s Hc)).
  - unfold display_time. by rewrite (M_bind_ok _ _ _ _ _ (reactive_calc_hit e r s Hc)).
  - unfold display_df. by rewrite (M_bind_ok _ _ _ _ _ (reactive_calc_hit e r s Hc)).
  - by apply display_plot_hit.
  - by eapply display_pie_chart_hit.
Qed.

Lemma call_after_calc c e s r s1 :
  reactive_calc_combined e s = (Ok r, s1) → calc s1 = Some r →
  call c e s = call c e s1.
Proof.
  intros H1 H2. pose proof (reactive_calc_hit e r s1 H2) as H3.
  destruct c; simpl;
    unfold display_temp, display_time, display_df, display_plot, display_pie_chart;
    by rewrite (M_bind_ok _ _ _ _ _ H1), (M_bind_ok _ _ _ _ _ H3).
Qed.

(** ** Every reachable session satisfies the invariant *)

Lemma wf_frame_loc s r t :
  wf s → heap s !! df r = Some (OFrame t) → df r ≠ reactive_value_wrapper s.
Proof.
  intros [_ (d & Hd & _) _] Ht Heq. rewrite Heq in Ht. congruence.
Qed.

Lemma buffer_left_by c r t s :
  wf s → heap s !! df r = Some (OFrame t) → buffer (left_by c r t s) = buffer s.
Proof.
  intros Hwf Ht. destruct c; try done. unfold buffer; simpl.
  by rewrite lookup_insert_ne by (by eapply wf_frame_loc).
Qed.

Lemma frame_of_plotted b t : frame_of b t → frame_of b (plotted b t).
Proof.
  intros (Hb & Hi & HT & HTs). repeat split; try done.
  - simpl. by rewrite !assoc_get_set_ne.
  - right. simpl. rewrite assoc_get_set_ne by done. apply assoc_get_set_eq.
Qed.

(** Running [display_plot] again changes nothing more. *)
Lemma plotted_idem b t : plotted b (plotted b t) = plotted b t.
Proof.
  unfold plotted, x_vals, len; simpl. f_equal.
  rewrite (assoc_set_id "Timestamp").
  - apply assoc_set_id, assoc_get_set_eq.
  - rewrite assoc_get_set_ne by done. apply assoc_get_set_eq.
Qed.

Lemma wf_left_by c r t s :
  wf s → calc s = Some r → heap s !! df r = Some (OFrame t) →
  frame_of (buffer s) t → wf (left_by c r t s).
Proof.
  intros Hwf Hc Ht Hf. destruct c; try done.
  pose proof (wf_frame_loc s r t Hwf Ht) as Hne.
  pose proof (buffer_left_by DisplayPlot r t s Hwf Ht) as Hb.
  destruct Hwf as [Hl (d & Hd & Hm & Hlen) Hcalc]. split.
  - done.
  - exists d. simpl. by rewrite lookup_insert_ne.
  - intros r' Hr'. simpl in Hr'. rewrite Hc in Hr'. injection Hr' as <-.
    destruct (Hcalc r Hc) as (Htm & Hsnap & Hlast & _).
    rewrite Hb. repeat split; try done.
    exists (plotted (buffer s) t). split.
    + simpl. by rewrite lookup_insert_eq.
    + by apply frame_of_plotted.
Qed.

Lemma wf_timer_fire s : wf s → wf (timer_fire s).
Proof.
  intros Hwf. unfold timer_fire. destruct (timer s); [|done].
  destruct Hwf as [Hl Hd _]. by split.
Qed.

(** A call of the calc in a well-formed session returns a result [r],
    cached in a well-formed session. *)
Lemma reactive_calc_wf e s :
  wf s → ∃ r s1 t, reactive_calc_combined e s = (Ok r, s1) ∧ wf s1 ∧
                   calc s1 = Some r ∧ heap s1 !! df r = Some (OFrame t) ∧
                   frame_of (buffer s1) t.
Proof.
  intros Hwf. destruct (calc s) as [r|] eqn:Hc.
  - destruct (wf_calc s Hwf r Hc) as (_ & _ & _ & t & Ht & Hf).
    exists r, s, t. by rewrite (reactive_calc_hit e r s Hc).
  - destruct (wf_deque s Hwf) as (d & Hd & Hm & Hlen).
    pose proof (wf_computed e d s Hwf Hd) as Hwf1.
    destruct (wf_calc _ Hwf1 _ eq_refl) as (_ & _ & _ & t & Ht & Hf).
    exists (fst (computed e d s)), (snd (computed e d s)), t.
    by rewrite (reactive_calc_miss e d s Hc Hd).
Qed.

Lemma reactive_calc_cached e s :
  wf s →
  ∃ r, reactive_calc_combined e s = (Ok r, snd (reactive_calc_combined e s)) ∧
       wf (snd (reactive_calc_combined e s)) ∧
       calc (snd (reactive_calc_combined e s)) = Some r.
Proof.
  intros Hwf.
  destruct (reactive_calc_wf e s Hwf) as (r & s1 & t & Hr & Hwf1 & Hc1 & _).
  exists r. by rewrite Hr.
Qed.

Lemma wf_step s ev : wf s → wf (step s ev).
Proof.
  intros Hwf. destruct ev as [|c e]; simpl; [by apply wf_timer_fire|].
  destruct (reactive_calc_wf e s Hwf) as (r & s1 & t & Hr & Hwf1 & Hc1 & Ht & Hf).
  rewrite (call_after_calc c e s r s1 Hr Hc1), (call_hit c e s1 r t Hc1 Ht Hf).
  simpl. by apply wf_left_by.
Qed.

Lemma wf_run evs s : wf s → wf (run evs s).
Proof.
  revert s. induction evs as [|ev evs IH]; intros s Hwf; [done|].
  simpl. apply IH. by apply wf_step.
Qed.

Lemma wf_reachable evs : wf (run evs init).
Proof. apply wf_run, wf_init. Qed.

Lemma buffer_the_deque s : buffer s = items (the_deque s).
Proof.
  unfold buffer, the_deque.
  destruct (heap s !! reactive_value_wrapper s) as [[d|t]|]; done.
Qed.

Lemma the_deque_eq s d :
  heap s !! reactive_value_wrapper s = Some (ODeque d) → the_deque s = d.
Proof. intros H. unfold the_deque. by rewrite H. Qed.

Lemma the_deque_timer_fire s : the_deque (timer_fire s) = the_deque s.
Proof. unfold timer_fire. by destruct (timer s). Qed.

Lemma the_deque_left_by c r t s :
  wf s → heap s !! df r = Some (OFrame t) →
  the_deque (left_by c r t s) = the_deque s.
Proof.
  intros Hwf Ht. destruct c; try done. unfold the_deque; simpl.
  by rewrite lookup_insert_ne by (by eapply wf_frame_loc).
Qed.

(** What a display function does to a well-formed session. *)
Lemma render_spec c e s :
  wf s →
  ∃ r s1 t,
    reactive_calc_combined e s = (Ok r, s1) ∧ wf s1 ∧ calc s1 = Some r ∧
    heap s1 !! df r = Some (OFrame t) ∧ frame_of (buffer s1) t ∧
    call c e s = (Ok (rendered_of c r (buffer s1) t), left_by c r t s1) ∧
    the_deque s1 = fold_left deque_append (pulled s (Render c e)) (the_deque s).
Proof.
  intros Hwf.
  destruct (reactive_calc_wf e s Hwf) as (r & s1 & t & Hr & Hwf1 & Hc1 & Ht & Hf).
  exists r, s1, t. do 5 (split; [done|]). split.
  - by rewrite (call_after_calc c e s r s1 Hr Hc1), (call_hit c e s1 r t Hc1 Ht Hf).
  - simpl. destruct (calc s) as [r0|] eqn:Hc.
    + rewrite (reactive_calc_hit e r0 s Hc) in Hr. by injection Hr as _ <-.
    + destruct (wf_deque s Hwf) as (d & Hd & _).
      rewrite (reactive_calc_miss e d s Hc Hd) in Hr. injection Hr as _ <-.
      rewrite (the_deque_eq s d Hd). simpl. apply the_deque_eq; simpl.
      rewrite lookup_insert_ne by apply computed_fresh.
      by rewrite lookup_insert_eq.
Qed.

Lemma the_deque_step s ev :
  wf s → the_deque (step s ev) = fold_left deque_append (pulled s ev) (the_deque s).
Proof.
  intros Hwf. destruct ev as [|c e]; [apply the_deque_timer_fire|].
  destruct (render_spec c e s Hwf) as (r & s1 & t & _ & Hwf1 & _ & Ht & _ & Hcall & Hd).
  unfold step. rewrite Hcall. simpl snd.
  by rewrite (the_deque_left_by c r t s1 Hwf1 Ht).
Qed.

Lemma the_deque_run evs s :
  wf s → the_deque (run evs s) = fold_left deque_append (pulls evs s) (the_deque s).
Proof.
  revert s. induction evs as [|ev evs IH]; intros s Hwf; [done|].
  simpl. rewrite fold_left_app, <- the_deque_step by done.
  apply IH. by apply wf_step.
Qed.

Lemma buffer_reachable evs :
  buffer (run evs init) = items (pushes DEQUE_SIZE (pulls evs init)).
Proof.
  rewrite buffer_the_deque, (the_deque_run evs init wf_init). reflexivity.
Qed.

(** C1. Whatever is pushed, and whatever the capacity, the deque never
    holds more items than its capacity and holds the last
    [min pushes capacity] items pushed, oldest first.  This holds of the
    deque of every session the application can reach, whose capacity is
    10; and pushing 1, 2, 3, 4 at capacity 3 leaves 2, 3, 4. *)
Theorem buffer_keeps_last_readings :
  (∀ (A : Type) (capacity : nat) (xs : list A),
     (length (items (pushes capacity xs)) <= capacity)%nat ∧
     items (pushes capacity xs) = last_n (min (length xs) capacity) xs) ∧
  (∀ evs : list event,
     let pushed := pulls evs init in
     (length (buffer (run evs init)) <= DEQUE_SIZE)%nat ∧
     buffer (run evs init) = last_n (min (length pushed) DEQUE_SIZE) pushed) ∧
  DEQUE_SIZE = 10 ∧
  items (pushes 3 [1; 2; 3; 4]) = [2; 3; 4].
Proof.
  split; [|split; [|split; reflexivity]].
  - intros A capacity xs. split; [apply pushes_length|apply pushes_items].
  - intros evs pushed. rewrite buffer_reachable. fold pushed.
    split; [apply pushes_length|apply pushes_items].
Qed.

Lemma calc_left_by c r t s : calc (left_by c r t s) = calc s.
Proof. by destruct c. Qed.

Lemma timer_left_by c r t s : timer (left_by c r t s) = timer s.
Proof. by destruct c. Qed.

Lemma left_by_other c r t s : is_plot c = false → left_by c r t s = s.
Proof. by destruct c. Qed.

Lemma calc_timer_fire s : wf s → calc (timer_fire s) = None.
Proof.
  intros Hwf. unfold timer_fire. destruct (timer s) eqn:Ht; [done|].
  destruct (calc s) as [r|] eqn:Hc; [|done].
  destruct (wf_calc s Hwf r Hc) as (Htm & _). congruence.
Qed.

Lemma buffer_step_render c e s :
  wf s →
  buffer (step s (Render c e)) =
    match calc s with
    | None => items (deque_append (the_deque s) (reading_of e))
    | Some _ => buffer s
    end.
Proof.
  intros Hwf. rewrite buffer_the_deque, the_deque_step by done. simpl.
  destruct (calc s); [by rewrite buffer_the_deque|done].
Qed.

Lemma timer_step_render c e s : wf s → timer (step s (Render c e)) = true.
Proof.
  intros Hwf.
  destruct (render_spec c e s Hwf) as (r & s1 & t & _ & Hwf1 & Hc1 & _ & _ & Hcall & _).
  unfold step. rewrite Hcall. simpl snd. rewrite timer_left_by.
  by destruct (wf_calc s1 Hwf1 r Hc1).
Qed.

(** A display function that finds the calc cached returns from the
    cache, pulls nothing, and leaves the session as it is, but for the
    frame that [display_plot] writes to. *)
Lemma render_cached c e s r :
  wf s → calc s = Some r →
  ∃ t, heap s !! df r = Some (OFrame t) ∧ frame_of (buffer s) t ∧
       call c e s = (Ok (rendered_of c r (buffer s) t), left_by c r t s).
Proof.
  intros Hwf Hc.
  destruct (wf_calc s Hwf r Hc) as (_ & _ & _ & t & Ht & Hf).
  exists t. split; [done|]. split; [done|]. by apply call_hit.
Qed.

Lemma deref_deque_live s :
  wf s → deref_deque s (reactive_value_wrapper s) = Some (buffer s).
Proof.
  intros Hwf. destruct (wf_deque s Hwf) as (d & Hd & _).
  unfold deref_deque, buffer. by rewrite Hd.
Qed.

Lemma deref_frame_left_by c r t s :
  heap s !! df r = Some (OFrame t) →
  deref_frame (left_by c r t s) (df r) =
    Some (if is_plot c then plotted (buffer s) t else t).
Proof.
  intros Ht. unfold deref_frame. destruct c; simpl; rewrite ?Ht; try done.
  by rewrite lookup_insert_eq.
Qed.

Lemma renders_cached mid s r t :
  wf s → calc s = Some r → heap s !! df r = Some (OFrame t) →
  wf (run (renders mid) s) ∧
  calc (run (renders mid) s) = Some r ∧
  the_deque (run (renders mid) s) = the_deque s ∧
  pulls (renders mid) s = [] ∧
  deref_frame (run (renders mid) s) (df r)
    = Some (if existsb is_plot (map fst mid) then plotted (buffer s) t else t) ∧
  (if existsb is_plot (map fst mid) then True else run (renders mid) s = s).
Proof.
  revert s t. induction mid as [|[c e] mid IH]; intros s t Hwf Hc Ht.
  { do 4 (split; [done|]). split; [|done]. unfold deref_frame; simpl. by rewrite Ht. }
  destruct (render_cached c e s r Hwf Hc) as (t0 & Ht0 & Hf & Hcall).
  assert (t0 = t) as -> by congruence.
  assert (Hstep : step s (Render c e) = left_by c r t s)
    by (unfold step; by rewrite Hcall).
  assert (Hwf' : wf (left_by c r t s)) by (by apply wf_left_by).
  assert (Hc' : calc (left_by c r t s) = Some r) by (by rewrite calc_left_by).
  pose proof (deref_frame_left_by c r t s Ht) as Ht'.
  unfold deref_frame in Ht'.
  destruct (heap (left_by c r t s) !! df r) as [[d|t']|] eqn:Hl; try done.
  injection Ht' as ->.
  destruct (IH _ _ Hwf' Hc' Hl) as (H1 & H2 & H3 & H4 & H5 & H6).
  change (run (renders ((c, e) :: mid)) s)
    with (run (renders mid) (step s (Render c e))).
  change (pulls (renders ((c, e) :: mid)) s)
    with (pulled s (Render c e) ++ pulls (renders mid) (step s (Render c e))).
  change (map fst ((c, e) :: mid)) with (c :: map fst mid).
  rewrite Hstep. unfold pulled. rewrite Hc. simpl.
  split; [done|]. split; [done|].
  split; [by rewrite H3, the_deque_left_by|]. split; [done|].
  rewrite (buffer_left_by c r t s Hwf Ht) in H5.
  destruct (is_plot c) eqn:Hp; simpl.
  - split; [|done]. rewrite H5, plotted_idem.
    by destruct (existsb is_plot (map fst mid)).
  - rewrite (left_by_other c r t s Hp) in *.
    split; [done|]. by destruct (existsb is_plot (map fst mid)).
Qed.

(** With the calc cached, a run of display calls leaves the session as it
    found it, or as one [display_plot] leaves it. *)
Lemma left_by_plot_again r t s :
  wf s → heap s !! df r = Some (OFrame t) →
  left_by DisplayPlot r (plotted (buffer s) t)
    (left_by DisplayPlot r t s) = left_by DisplayPlot r t s.
Proof.
  intros Hwf Ht. unfold left_by at 1.
  rewrite (buffer_left_by DisplayPlot r t s Hwf Ht), plotted_idem.
  unfold left_by, with_heap; simpl. by rewrite insert_insert_eq.
Qed.

Lemma renders_leave mid s r t :
  wf s → calc s = Some r → heap s !! df r = Some (OFrame t) →
  run (renders mid) s =
    if existsb is_plot (map fst mid) then left_by DisplayPlot r t s else s.
Proof.
  revert s t. induction mid as [|[c e] mid IH]; intros s t Hwf Hc Ht; [done|].
  destruct (render_cached c e s r Hwf Hc) as (t0 & Ht0 & Hf & Hcall).
  assert (t0 = t) as -> by congruence.
  assert (Hstep : step s (Render c e) = left_by c r t s)
    by (unfold step; by rewrite Hcall).
  change (run (renders ((c, e) :: mid)) s)
    with (run (renders mid) (step s (Render c e))).
  change (map fst ((c, e) :: mid)) with (c :: map fst mid).
  rewrite Hstep. destruct (is_plot c) eqn:Hp.
  - destruct c; try done. simpl existsb.
    assert (Hl : heap (left_by DisplayPlot r t s) !! df r
                 = Some (OFrame (plotted (buffer s) t)))
      by (simpl; by rewrite lookup_insert_eq).
    rewrite (IH _ _ (wf_left_by DisplayPlot r t s Hwf Hc Ht Hf)
               (eq_trans (calc_left_by _ _ _ _) Hc) Hl).
    rewrite (left_by_plot_again r t s Hwf Ht).
    by destruct (existsb is_plot (map fst mid)).
  - rewrite (left_by_other c r t s Hp). simpl existsb. rewrite Hp. simpl.
    by apply IH.
Qed.

(** With no reader, firings of the timer leave the buffer alone: after
    the first reading, three idle firings append nothing. *)
Lemma idle_firings_append_nothing :
  let s1 := run [Render DisplayDf sample_env] init in
  length (buffer s1) = 1 ∧
  buffer (run [TimerFire; TimerFire; TimerFire] s1) = buffer s1 ∧
  ∀ x, buffer (timer_fire s1) ≠ items (deque_append (the_deque s1) x).
Proof.
  split; [by vm_compute|]. split; [by vm_compute|].
  intros x H. vm_compute in H. discriminate.
Qed.

(** C6, as the code has it. In every reachable session a firing of the
    timer only invalidates the calc and never touches the buffer.  A
    reading is
    pulled and appended when a display function next calls the calc:
    exactly one if the calc had no cached value, none if it had; that
    execution arms the timer again. *)
Theorem reading_pulled_on_first_read_after_firing (evs : list event)
    (c : consumer) (e : env) :
  let s := run evs init in
  buffer (timer_fire s) = buffer s ∧
  calc (timer_fire s) = None ∧
  buffer (step s (Render c e)) =
    match calc s with
    | None => items (deque_append (the_deque s) (reading_of e))
    | Some _ => buffer s
    end ∧
  timer (step s (Render c e)) = true.
Proof.
  intros s. pose proof (wf_reachable evs) as Hwf. fold s in Hwf.
  split; [by rewrite !buffer_the_deque, the_deque_timer_fire|].
  split; [by apply calc_timer_fire|].
  split; [by apply buffer_step_render|by apply timer_step_render].
Qed.

(** Two calls of the calc with only a call of [display_plot] between
    them, no firing of the timer and no reading pulled: both return the
    same tuple, but the table read through it has two columns at the
    first call and three at the second. *)
Lemma reads_across_display_plot_see_different_tables :
  let s1 := snd (reactive_calc_combined sample_env init) in
  let s2 := run (renders [(DisplayPlot, sample_env)]) s1 in
  ∃ r t1 t2,
    reactive_calc_combined sample_env init = (Ok r, s1) ∧
    reactive_calc_combined sample_env s2 = (Ok r, s2) ∧
    pulls (renders [(DisplayPlot, sample_env)]) s1 = [] ∧
    deref_frame s1 (df r) = Some t1 ∧
    deref_frame s2 (df r) = Some t2 ∧
    map fst (columns t1) = ["Temp"; "Timestamp"] ∧
    map fst (columns t2) = ["Temp"; "Timestamp"; "best_fit_line"] ∧
    t1 ≠ t2.
Proof.
  intros s1 s2.
  destruct (fst (reactive_calc_combined sample_env init)) as [r|x] eqn:Hr;
    [|by vm_compute in Hr].
  destruct (deref_frame s1 (df r)) as [t1|] eqn:H1;
    [|vm_compute in Hr; injection Hr as <-; by vm_compute in H1].
  destruct (deref_frame s2 (df r)) as [t2|] eqn:H2;
    [|vm_compute in Hr; injection Hr as <-; by vm_compute in H2].
  exists r, t1, t2.
  vm_compute in Hr. injection Hr as <-.
  vm_compute in H1. injection H1 as <-.
  vm_compute in H2. injection H2 as <-.
  repeat split; by vm_compute.
Qed.

(** C7, as the code has it. In every reachable session, a call of the
    calc followed by any calls of the display functions and, with no
    firing of the timer in between, by a second call of the calc: both
    calls return the same tuple (the same deque, the same frame, the same
    latest reading), the second call changes nothing, no reading is
    pulled and the buffer is not touched in between.  The table read
    through the tuple is the same at both calls unless [display_plot] ran
    in between; then it is the first table as [display_plot] leaves it,
    with the same rows and the same column [Temp].  Nothing else in the
    session differs. *)
Theorem reads_between_firings_agree (evs : list event) (e1 e2 : env)
    (mid : list (consumer * env)) :
  let s := run evs init in
  let s1 := snd (reactive_calc_combined e1 s) in
  let s2 := run (renders mid) s1 in
  ∃ r t t',
    reactive_calc_combined e1 s = (Ok r, s1) ∧
    reactive_calc_combined e2 s2 = (Ok r, s2) ∧
    pulls (renders mid) s1 = [] ∧
    buffer s2 = buffer s1 ∧
    deref_deque s2 (deque_snapshot r) = deref_deque s1 (deque_snapshot r) ∧
    deref_frame s1 (df r) = Some t ∧
    deref_frame s2 (df r) = Some t' ∧
    t' = (if existsb is_plot (map fst mid) then plotted (buffer s1) t else t) ∧
    len t' = len t ∧ getitem t' "Temp" = getitem t "Temp" ∧
    s2 = (if existsb is_plot (map fst mid) then left_by DisplayPlot r t s1 else s1).
Proof.
  intros s s1 s2. pose proof (wf_reachable evs) as Hwf. fold s in Hwf.
  destruct (reactive_calc_cached e1 s Hwf) as (r & Hr & Hwf1 & Hc1).
  fold s1 in Hr, Hwf1, Hc1.
  destruct (wf_calc s1 Hwf1 r Hc1) as (_ & Hsnap & _ & t & Ht & _).
  destruct (renders_cached mid s1 r t Hwf1 Hc1 Ht) as (H1 & H2 & H3 & H4 & H5 & _).
  pose proof (renders_leave mid s1 r t Hwf1 Hc1 Ht) as H6.
  fold s2 in H1, H2, H3, H5, H6.
  assert (Hb : buffer s2 = buffer s1) by (by rewrite !buffer_the_deque, H3).
  exists r, t, (if existsb is_plot (map fst mid) then plotted (buffer s1) t else t).
  split; [done|]. split; [by apply reactive_calc_hit|].
  split; [done|]. split; [done|]. split.
  { pose proof (wf_loc s1 Hwf1) as L1. pose proof (wf_loc s2 H1) as L2.
    rewrite Hsnap, (deref_deque_live s1 Hwf1), L1, <- L2.
    by rewrite (deref_deque_live s2 H1), Hb. }
  split; [unfold deref_frame; by rewrite Ht|]. split; [done|]. split; [done|].
  split; [by destruct (existsb is_plot (map fst mid))|]. split; [|done].
  destruct (existsb is_plot (map fst mid)); [|done].
  unfold getitem; simpl. by rewrite !assoc_get_set_ne.
Qed.

(** ** Who writes to the cached frame *)

(** With the calc cached and no firing of the timer, [display_plot]
    changes the cached frame: the text of [Timestamp] becomes datetimes
    and a column [best_fit_line] appears. *)
Lemma display_plot_writes_cached_frame :
  let s1 := run [Render DisplayDf sample_env] init in
  let s2 := step s1 (Render DisplayPlot sample_env) in
  ∃ r t1 t2,
    calc s1 = Some r ∧ calc s2 = Some r ∧
    deref_frame s1 (df r) = Some t1 ∧ deref_frame s2 (df r) = Some t2 ∧
    map fst (columns t1) = ["Temp"; "Timestamp"] ∧
    map fst (columns t2) = ["Temp"; "Timestamp"; "best_fit_line"] ∧
    assoc_get "Timestamp" (columns t1) = Some (ObjectCol ["2024-05-01 12:00:00"]) ∧
    assoc_get "Timestamp" (columns t2)
      = Some (DatetimeCol [Parsed "2024-05-01 12:00:00"]) ∧
    t1 ≠ t2.
Proof.
  intros s1 s2.
  destruct (calc s1) as [r|] eqn:Hr; [|by vm_compute in Hr].
  destruct (deref_frame s1 (df r)) as [t1|] eqn:H1;
    [|vm_compute in Hr; injection Hr as <-; by vm_compute in H1].
  destruct (deref_frame s2 (df r)) as [t2|] eqn:H2;
    [|vm_compute in Hr; injection Hr as <-; by vm_compute in H2].
  exists r, t1, t2.
  vm_compute in Hr. injection Hr as <-.
  vm_compute in H1. injection H1 as <-.
  vm_compute in H2. injection H2 as <-.
  repeat split; by vm_compute.
Qed.

(** C8, as the code has it. With the calc cached, [display_temp],
    [display_time], [display_df] and [display_pie_chart] leave the whole
    session, and
    so the cached frame, as it is.  [display_plot] writes to the cached
    frame in place: it replaces the column [Timestamp] by datetimes and
    sets the column [best_fit_line]; the number of rows, the column
    [Temp], every other object, the buffer and the cached tuple stay as
    they are. *)
Theorem only_display_plot_writes_cached_frame (evs : list event) (e : env)
    (c : consumer) (e' : env) :
  let s1 := snd (reactive_calc_combined e (run evs init)) in
  let s2 := step s1 (Render c e') in
  ∃ r t,
    calc s1 = Some r ∧ deref_frame s1 (df r) = Some t ∧
    calc s2 = Some r ∧ buffer s2 = buffer s1 ∧
    match c with
    | DisplayPlot =>
        deref_frame s2 (df r) = Some (plotted (buffer s1) t) ∧
        delete (df r) (heap s2) = delete (df r) (heap s1) ∧
        len (plotted (buffer s1) t) = len t ∧
        getitem (plotted (buffer s1) t) "Temp" = getitem t "Temp"
    | _ => s2 = s1
    end.
Proof.
  intros s1 s2. pose proof (wf_reachable evs) as Hwf.
  destruct (reactive_calc_cached e _ Hwf) as (r & Hr & Hwf1 & Hc1).
  fold s1 in Hr, Hwf1, Hc1.
  destruct (render_cached c e' s1 r Hwf1 Hc1) as (t & Ht & Hf & Hcall).
  assert (Hs2 : s2 = left_by c r t s1) by (subst s2; unfold step; by rewrite Hcall).
  exists r, t. split; [done|]. split; [unfold deref_frame; by rewrite Ht|].
  split; [by rewrite Hs2, calc_left_by|].
  split; [rewrite Hs2; by apply buffer_left_by|].
  destruct c; try done. rewrite Hs2.
  split; [by rewrite deref_frame_left_by|]. split; [|split].
  - simpl. apply delete_insert_eq.
  - reflexivity.
  - unfold getitem; simpl. by rewrite !assoc_get_set_ne.
Qed.

(** ** The deque of the tuple is the live deque *)

Lemma buffer_length_append (d : deque reading) x :
  (length (items d) <= maxlen d)%nat →
  length (items (deque_append d x)) = min (maxlen d) (S (length (items d))).
Proof.
  intros Hle. rewrite deque_append_items by done.
  destruct (Nat.ltb_spec (length (items d)) (maxlen d)).
  - rewrite length_app; simpl; lia.
  - rewrite tail_drop, length_drop, length_app; simpl; lia.
Qed.

(** C10. The first component of the tuple is the deque itself.  Read
    through a tuple obtained at one tick, the deque shows, after any
    later events, the buffer as it then is; after the next firing and
    read it shows the buffer of that tick, with the new reading last
    and one item more if the deque was not full. *)
Theorem deque_snapshot_is_the_live_deque (evs : list event) (e : env)
    (later : list event) (c : consumer) (e' : env) :
  let s := run evs init in
  let sk := snd (reactive_calc_combined e s) in
  let sk1 := run [TimerFire; Render c e'] sk in
  ∃ r, reactive_calc_combined e s = (Ok r, sk) ∧
       deref_deque sk (deque_snapshot r) = Some (buffer sk) ∧
       deref_deque (run later sk) (deque_snapshot r) = Some (buffer (run later sk)) ∧
       deref_deque sk1 (deque_snapshot r)
         = Some (items (deque_append (the_deque sk) (reading_of e'))) ∧
       last (buffer sk1) = Some (reading_of e') ∧
       length (buffer sk1) = min DEQUE_SIZE (S (length (buffer sk))).
Proof.
  intros s sk sk1. pose proof (wf_reachable evs) as Hwf. fold s in Hwf.
  destruct (reactive_calc_cached e s Hwf) as (r & Hr & Hwfk & Hck).
  fold sk in Hr, Hwfk, Hck.
  destruct (wf_calc sk Hwfk r Hck) as (_ & Hsnap & _).
  assert (Hlive : ∀ evs', deref_deque (run evs' sk) (deque_snapshot r)
                          = Some (buffer (run evs' sk))).
  { intros evs'. pose proof (wf_run evs' sk Hwfk) as Hwf'.
    rewrite Hsnap, (wf_loc sk Hwfk), <- (wf_loc _ Hwf').
    by apply deref_deque_live. }
  assert (Hb1 : buffer sk1 = items (deque_append (the_deque sk) (reading_of e'))).
  { subst sk1. change (run [TimerFire; Render c e'] sk)
      with (step (timer_fire sk) (Render c e')).
    rewrite buffer_step_render by (by apply wf_timer_fire).
    by rewrite calc_timer_fire, the_deque_timer_fire. }
  destruct (wf_deque sk Hwfk) as (d & Hd & Hm & Hlen).
  pose proof (the_deque_eq sk d Hd) as Hdk.
  exists r. split; [done|]. split; [apply (Hlive [])|]. split; [apply Hlive|].
  split; [by rewrite <- Hb1; apply (Hlive [TimerFire; Render c e'])|].
  rewrite Hb1, Hdk, (buffer_eq sk d Hd). split.
  - apply deque_append_last. rewrite Hm. unfold DEQUE_SIZE. lia.
  - rewrite <- Hm. apply buffer_length_append. by rewrite Hm.
Qed.

(** ** The empty frame *)

Lemma display_plot_on_empty_frame e s r :
  calc s = Some r → heap s !! df r = Some (OFrame (pd_DataFrame [])) →
  display_plot e s = (Raise (UnboundLocalError "fig"), s).
Proof.
  intros Hc Ht. unfold display_plot.
  rewrite (M_bind_ok _ _ _ _ _ (reactive_calc_hit e r s Hc)).
  by rewrite (M_bind_ok _ _ _ _ _ (load_frame_ok _ _ _ Ht)).
Qed.

Lemma display_pie_chart_on_empty_frame e s r :
  calc s = Some r → heap s !! df r = Some (OFrame (pd_DataFrame [])) →
  display_pie_chart e s = (Raise (KeyError "Temp"), s).
Proof.
  intros Hc Ht. unfold display_pie_chart.
  rewrite (M_bind_ok _ _ _ _ _ (reactive_calc_hit e r s Hc)).
  by rewrite (M_bind_ok _ _ _ _ _ (load_frame_ok _ _ _ Ht)).
Qed.

(** The frame built from the empty deque has no column [Temp]: counting
    the values over 20 raises [KeyError]. *)
Lemma counting_raises_on_empty_buffer :
  items (deque_new DEQUE_SIZE) = @nil reading ∧
  is_ok (over_20 (pd_DataFrame [])) = false ∧
  over_20 (pd_DataFrame []) = Raise (KeyError "Temp").
Proof. done. Qed.

Lemma trend_ok b t : frame_of b t → is_ok (trend t) = true.
Proof.
  intros Hf. unfold trend. rewrite (frame_of_not_empty _ _ Hf); simpl.
  by rewrite (regress_ok _ _ Hf).
Qed.

(** The line that [display_plot] draws is the line of [trend]. *)
Lemma display_plot_draws_trend e s r t :
  calc s = Some r →
  heap s !! df r = Some (OFrame t) →
  frame_of (buffer s) t →
  ∃ reg,
    trend t = Ok (Some reg) ∧
    fst (display_plot e s) =
      Ok (Plotly [Scatter (DatetimeCol (datetimes (buffer s)))
                          (FloatCol (temps (buffer s)));
                  Scatter (DatetimeCol (datetimes (buffer s)))
                          (best_fit_line reg (x_vals t))]).
Proof.
  intros Hc Ht Hf. rewrite (display_plot_hit e s r t Hc Ht Hf).
  unfold trend. rewrite (frame_of_not_empty _ _ Hf). simpl negb. cbv iota.
  rewrite (regress_ok _ _ Hf). eexists. split; reflexivity.
Qed.

(** C2, as the code has it. In every session the application can
    reach, every display function returns without raising; the frame
    they are given
    has between 1 and 10 rows (the calc appends a reading before it
    builds the frame), and on it the trend and both counts are computed
    without raising. *)
Theorem display_functions_never_raise (evs : list event) (c : consumer) (e : env) :
  let s := run evs init in
  is_ok (fst (call c e s)) = true ∧
  ∃ r s1 t,
    reactive_calc_combined e s = (Ok r, s1) ∧
    deref_frame s1 (df r) = Some t ∧
    (1 <= len t <= DEQUE_SIZE)%nat ∧
    is_ok (trend t) = true ∧
    is_ok (over_20 t) = true ∧
    is_ok (under_20 t) = true.
Proof.
  intros s. pose proof (wf_reachable evs) as Hwf. fold s in Hwf.
  destruct (render_spec c e s Hwf) as (r & s1 & t & Hr & Hwf1 & Hc1 & Ht & Hf & Hcall & _).
  split; [by rewrite Hcall|].
  exists r, s1, t. split; [done|]. split; [unfold deref_frame; by rewrite Ht|].
  split.
  - destruct Hf as (Hb & Hi & _). unfold len. rewrite Hi.
    destruct (wf_deque s1 Hwf1) as (d & Hd & _ & Hlen).
    rewrite (buffer_eq s1 d Hd) in *. destruct (items d); [done|simpl in *; lia].
  - split; [by eapply trend_ok|].
    by rewrite (over_20_eq _ _ Hf), (under_20_eq _ _ Hf).
Qed.

(** ** One reading *)

Lemma least_squares_single y :
  least_squares [Float.of_Z 0] [y] = {| slope := NaN; intercept := NaN |}.
Proof.
  unfold least_squares, Float.mean, Float.sum.
  destruct y as [q|[]|]; simpl; reflexivity.
Qed.

(** On the first tick the frame has one row; the regression runs on it
    and gives NaN for both coefficients, and the fitted line is NaN. *)
Lemma first_tick_trend_is_nan :
  trend (pd_DataFrame [reading_of sample_env])
    = Ok (Some {| slope := NaN; intercept := NaN |}) ∧
  trend (pd_DataFrame [reading_of sample_env]) ≠ Ok None ∧
  ∃ t, deref_frame (run [Render DisplayPlot sample_env] init) 1 = Some t ∧
       assoc_get "best_fit_line" (columns t) = Some (FloatCol [NaN]).
Proof.
  split; [by vm_compute|]. split; [by vm_compute|].
  eexists. split; by vm_compute.
Qed.

(** C3, as the code has it. For a frame of exactly one reading the
    trend is not absent: the regression is run, raises nothing, and
    returns NaN as slope and as intercept. *)
Theorem single_reading_trend_is_nan (r : reading) :
  trend (pd_DataFrame [r]) = Ok (Some {| slope := NaN; intercept := NaN |}).
Proof.
  assert (Hf : frame_of [r] (pd_DataFrame [r])) by (by apply frame_of_built).
  unfold trend. rewrite (frame_of_not_empty _ _ Hf). simpl negb. cbv iota.
  rewrite (regress_ok _ _ Hf).
  change (x_vals (pd_DataFrame [r])) with [0%Z].
  change (temps [r]) with [Finite (Temp r)]. simpl map.
  by rewrite least_squares_single.
Qed.

(** ** The two counts *)

(** On the frame built from the empty deque neither count exists. *)
Lemma no_counts_on_empty_snapshot :
  len (pd_DataFrame []) = 0 ∧
  over_20 (pd_DataFrame []) = Raise (KeyError "Temp") ∧
  under_20 (pd_DataFrame []) = Raise (KeyError "Temp") ∧
  ∀ above at_or_below : nat,
    (over_20 (pd_DataFrame []), under_20 (pd_DataFrame []))
      ≠ (Ok above, Ok at_or_below).
Proof. repeat split. intros a b H. discriminate. Qed.

(** C5, as the code has it. For every frame built from [n >= 1]
    readings the two counts are the number of values [v] with [v > 20]
    and the number of values with [v <= 20], and they add up to [n]. *)
Theorem counts_partition_the_snapshot (rows : list reading) :
  rows ≠ [] →
  ∃ above at_or_below,
    over_20 (pd_DataFrame rows) = Ok above ∧
    under_20 (pd_DataFrame rows) = Ok at_or_below ∧
    above = length (filter (fun r => (20 < Temp r)%Q) rows) ∧
    at_or_below = length (filter (fun r => (Temp r <= 20)%Q) rows) ∧
    (above + at_or_below = length rows)%nat.
Proof.
  intros Hne. pose proof (frame_of_built rows Hne) as Hf.
  eexists _, _. split; [apply (over_20_eq _ _ Hf)|].
  split; [apply (under_20_eq _ _ Hf)|].
  split; [apply count_over|]. split; [apply count_under|].
  rewrite <- (length_temps rows). apply count_partition; [|done].
  apply temps_not_nan.
Qed.

(** The readings 18, 19, 20, 21, 22: two over 20, three at or below. *)
Lemma counts_partition_example :
  ∃ above at_or_below,
    over_20 (pd_DataFrame (map degrees [18; 19; 20; 21; 22]%Z)) = Ok above ∧
    under_20 (pd_DataFrame (map degrees [18; 19; 20; 21; 22]%Z)) = Ok at_or_below ∧
    above = 2 ∧ at_or_below = 3 ∧ (above + at_or_below = 5)%nat.
Proof.
  destruct (counts_partition_the_snapshot (map degrees [18; 19; 20; 21; 22]%Z))
    as (a & b & Ha & Hb & Ea & Eb & Hsum).
  - discriminate.
  - exists a, b. split; [exact Ha|]. split; [exact Hb|].
    split; [rewrite Ea; reflexivity|]. split; [rewrite Eb; reflexivity|exact Hsum].
Defined.

(** ** The range of the readings *)

Lemma round_half_even_bounds (x : Q) (lo hi : Z) :
  (inject_Z lo <= x)%Q → (x <= inject_Z hi)%Q →
  (lo <= round_half_even x <= hi)%Z.
Proof.
  intros Hlo Hhi.
  assert (Hf1 : (lo <= Qfloor x)%Z).
  { rewrite <- (Qfloor_Z lo). by apply Qfloor_resp_le. }
  assert (Hf2 : (Qfloor x <= hi)%Z).
  { rewrite <- (Qfloor_Z hi). by apply Qfloor_resp_le. }
  assert (Hup : (1 # 2 <= x - inject_Z (Qfloor x))%Q → (Qfloor x + 1 <= hi)%Z).
  { intros Hhalf. destruct (Z.eq_dec (Qfloor x) hi) as [E|E]; [|lia].
    rewrite E in Hhalf. lra. }
  unfold round_half_even.
  destruct (Qcompare (x - inject_Z (Qfloor x)) (1 # 2)) eqn:Hc.
  - apply Qeq_alt in Hc. destruct (Z.even (Qfloor x)); [lia|].
    split; [lia|]. apply Hup. rewrite Hc. apply Qle_refl.
  - lia.
  - apply Qgt_alt in Hc. split; [lia|]. apply Hup. by apply Qlt_le_weak.
Qed.

Lemma round_uniform_range (u : Q) :
  (0 <= u)%Q → (u < 1)%Q →
  (17 <= round (uniform 17 23 u) 1)%Q ∧ (round (uniform 17 23 u) 1 <= 23)%Q.
Proof.
  intros H0 H1. unfold round, uniform.
  change (inject_Z (10 ^ Z.of_nat 1)) with (inject_Z 10).
  destruct (round_half_even_bounds ((17 + (23 - 17) * u) * inject_Z 10) 170 230)
    as [Hl Hh].
  - change (inject_Z 170) with (170 # 1)%Q. change (inject_Z 10) with (10 # 1)%Q. lra.
  - change (inject_Z 230) with (230 # 1)%Q. change (inject_Z 10) with (10 # 1)%Q. lra.
  - set (z := round_half_even _) in *.
    rewrite Zle_Qle in Hl, Hh.
    change (inject_Z 170) with (170 # 1)%Q in Hl.
    change (inject_Z 230) with (230 # 1)%Q in Hh.
    change (inject_Z 10) with (10 # 1)%Q.
    split.
    + apply Qle_shift_div_l; [reflexivity|]. lra.
    + apply Qle_shift_div_r; [reflexivity|]. lra.
Qed.

Lemma reading_of_in_range e : draw_ok e → in_range (Temp (reading_of e)).
Proof. intros [H0 H1]. by apply round_uniform_range. Qed.

Lemma pulls_in_range evs s :
  Forall fair evs → Forall (fun r => in_range (Temp r)) (pulls evs s).
Proof.
  intros Hfair. revert s. induction Hfair as [|ev evs Hev Hfair IH]; intros s; [done|].
  simpl. apply Forall_app. split; [|apply IH].
  destruct ev as [|c e]; simpl; [done|].
  destruct (calc s); [done|].
  apply Forall_cons. split; [by apply reading_of_in_range|done].
Qed.

(** C9. When every draw of [random()] lies in [0, 1), every reading in
    the buffer of a reachable session has its value in [17, 23], and so
    have the latest reading of the cached tuple and every value of the
    column [Temp] of its frame, which holds the values of the buffer. *)
Theorem readings_lie_between_17_and_23 (evs : list event) :
  Forall fair evs →
  let s := run evs init in
  Forall (fun r => in_range (Temp r)) (buffer s) ∧
  match calc s with
  | None => True
  | Some r =>
      in_range (Temp (latest_dictionary_entry r)) ∧
      ∃ t, deref_frame s (df r) = Some t ∧
           getitem t "Temp" = Ok (FloatCol (map Finite (map Temp (buffer s)))) ∧
           Forall in_range (map Temp (buffer s))
  end.
Proof.
  intros Hfair s. pose proof (wf_reachable evs) as Hwf. fold s in Hwf.
  assert (Hbuf : Forall (fun r => in_range (Temp r)) (buffer s)).
  { subst s. rewrite buffer_reachable, pushes_items. unfold last_n.
    apply Forall_drop. by apply pulls_in_range. }
  split; [done|]. destruct (calc s) as [r|] eqn:Hc; [|done].
  destruct (wf_calc s Hwf r Hc) as (_ & _ & Hlast & t & Ht & Hf).
  split.
  - apply last_Some in Hlast as (l' & Hl'). rewrite Hl' in Hbuf.
    apply Forall_app in Hbuf as [_ Hbuf]. by inversion Hbuf.
  - exists t. split; [unfold deref_frame; by rewrite Ht|]. split.
    + destruct Hf as (_ & _ & HT & _). unfold getitem. rewrite HT.
      unfold temps. by rewrite map_map.
    + by apply Forall_map.
Qed.

(** The first tick of a session, with the draw 0. *)
Lemma readings_in_range_first_tick :
  Forall fair [Render DisplayDf sample_env] ∧
  let s := run [Render DisplayDf sample_env] init in
  Forall (fun r => in_range (Temp r)) (buffer s) ∧
  match calc s with
  | None => True
  | Some r =>
      in_range (Temp (latest_dictionary_entry r)) ∧
      ∃ t, deref_frame s (df r) = Some t ∧
           getitem t "Temp" = Ok (FloatCol (map Finite (map Temp (buffer s)))) ∧
           Forall in_range (map Temp (buffer s))
  end.
Proof.
  assert (H : Forall fair [Render DisplayDf sample_env]).
  { apply Forall_cons. split; [|constructor].
    split; simpl; [discriminate|reflexivity]. }
  split; [exact H|]. exact (readings_lie_between_17_and_23 _ H).
Defined.

(** ** The regression line *)

Section FloatLifting.

Local Open Scope Q_scope.

Lemma fold_add_finite l a :
  fold_left Float.add (map Finite l) (Finite a) = Finite (fold_left Qplus l a).
Proof. revert a. induction l as [|x l IH]; intros a; simpl; [done|apply IH]. Qed.

Lemma sum_finite l : Float.sum (map Finite l) = Finite (qsum l).
Proof. apply fold_add_finite. Qed.

Lemma inject_nat_nonzero n : (0 < n)%nat → Qeq_bool (inject_Z (Z.of_nat n)) 0 = false.
Proof.
  intros Hn. apply not_true_iff_false. rewrite Qeq_bool_iff.
  unfold Qeq; simpl. lia.
Qed.

Lemma mean_finite l :
  (0 < length l)%nat → Float.mean (map Finite l) = Finite (qmean l).
Proof.
  intros Hn. unfold Float.mean. rewrite sum_finite, length_map.
  unfold Float.of_nat, Float.of_Z, Float.div. by rewrite inject_nat_nonzero.
Qed.

Lemma map_finite_sq m l :
  map (fun xi => Float.mul (Float.sub xi (Finite m)) (Float.sub xi (Finite m)))
      (map Finite l)
  = map Finite (map (fun x => (x - m) * (x - m)) l).
Proof. rewrite !map_map. by apply map_ext. Qed.

Lemma zip_finite mx my a b :
  zip_with (fun xi yi => Float.mul (Float.sub xi (Finite mx)) (Float.sub yi (Finite my)))
           (map Finite a) (map Finite b)
  = map Finite (zip_with (fun x y => (x - mx) * (y - my)) a b).
Proof.
  revert b. induction a as [|x a IH]; intros [|y b]; simpl; try done.
  by rewrite IH.
Qed.

Lemma fold_left_total l a : fold_left Qplus l a == a + OLS.total l.
Proof.
  revert a. induction l as [|x l IH]; intros a; simpl.
  - ring.
  - rewrite IH. ring.
Qed.

Lemma qsum_total l : qsum l == OLS.total l.
Proof. unfold qsum. rewrite fold_left_total. ring. Qed.

Lemma qmean_mean l : qmean l == OLS.mean l.
Proof. unfold qmean, OLS.mean. by rewrite qsum_total. Qed.

Lemma total_zip_ext (f g : Q → Q → Q) a b :
  (∀ x y, f x y == g x y) → OLS.total (zip_with f a b) == OLS.total (zip_with g a b).
Proof.
  intros Hfg. revert b. induction a as [|x a IH]; intros [|y b]; simpl; try reflexivity.
  by rewrite IH, Hfg.
Qed.

Lemma zip_with_diag {A B} (f : A → A → B) l :
  zip_with f l l = map (fun x => f x x) l.
Proof. induction l as [|x l IH]; simpl; [done|by rewrite IH]. Qed.

Lemma square_nonneg (a : Q) : 0 <= a * a.
Proof. unfold Qle, Qmult; simpl. nia. Qed.

Lemma total_nonneg_sq m l : 0 <= OLS.total (map (fun x => (x - m) * (x - m)) l).
Proof.
  induction l as [|x l IH]; simpl; [apply Qle_refl|].
  pose proof (square_nonneg (x - m)). lra.
Qed.

Lemma indices_cons n :
  indices (S (S n)) = 0 :: 1 :: map (fun i => inject_Z (Z.of_nat i)) (seq 2 n).
Proof. reflexivity. Qed.

Lemma length_indices n : length (indices n) = n.
Proof. unfold indices. by rewrite length_map, length_seq. Qed.

Lemma spread_positive n m :
  (2 <= n)%nat → 0 < OLS.total (map (fun x => (x - m) * (x - m)) (indices n)).
Proof.
  intros Hn. destruct n as [|[|n]]; [lia..|].
  rewrite indices_cons. simpl.
  pose proof (total_nonneg_sq m (map (fun i => inject_Z (Z.of_nat i)) (seq 2 n))).
  pose proof (square_nonneg (m - (1 # 2))).
  assert ((0 - m) * (0 - m) + (1 - m) * (1 - m)
          == 2 * ((m - (1 # 2)) * (m - (1 # 2))) + (1 # 2)) as E by ring.
  lra.
Qed.

Lemma qmean_sq_nonzero n m :
  (2 <= n)%nat →
  Qeq_bool (qmean (map (fun x => (x - m) * (x - m)) (indices n))) 0 = false.
Proof.
  intros Hn. apply not_true_iff_false. rewrite Qeq_bool_iff.
  unfold qmean. rewrite qsum_total, length_map, length_indices.
  pose proof (spread_positive n m Hn) as Hpos.
  assert (Hn' : 0 < inject_Z (Z.of_nat n)).
  { change 0 with (inject_Z 0). rewrite <- Zlt_Qlt. lia. }
  intros Hz.
  assert (0 < OLS.total (map (fun x => (x - m) * (x - m)) (indices n)) / inject_Z (Z.of_nat n))
    by (apply Qlt_shift_div_l; [done|lra]).
  lra.
Qed.

Lemma least_squares_finite n ys :
  (2 <= n)%nat → length ys = n →
  least_squares (map Finite (indices n)) (map Finite ys) =
    let xm := qmean (indices n) in
    let ym := qmean ys in
    let sxx := qmean (map (fun x => (x - xm) * (x - xm)) (indices n)) in
    let sxy := qmean (zip_with (fun x y => (x - xm) * (y - ym)) (indices n) ys) in
    {| slope := Finite (sxy / sxx);
       intercept := Finite (ym - sxy / sxx * xm) |}.
Proof.
  intros Hn Hy. unfold least_squares.
  rewrite !mean_finite by (rewrite ?length_indices; lia).
  rewrite map_finite_sq, zip_finite.
  rewrite !mean_finite
    by (rewrite ?length_map, ?length_zip_with, ?length_indices; lia).
  cbv zeta. unfold Float.div. rewrite qmean_sq_nonzero by done.
  reflexivity.
Qed.

Lemma mean_zip_ext (f g : Q → Q → Q) a b :
  (∀ x y, f x y == g x y) →
  OLS.mean (zip_with f a b) == OLS.mean (zip_with g a b).
Proof.
  intros Hfg. unfold OLS.mean. rewrite !length_zip_with.
  by rewrite (total_zip_ext f g a b Hfg).
Qed.

Lemma qmean_covariance a b :
  qmean (zip_with (fun x y => (x - qmean a) * (y - qmean b)) a b)
  == OLS.covariance a b.
Proof.
  rewrite qmean_mean. unfold OLS.covariance.
  apply mean_zip_ext. intros x y. by rewrite !qmean_mean.
Qed.

Lemma qmean_variance a :
  qmean (map (fun x => (x - qmean a) * (x - qmean a)) a) == OLS.variance a.
Proof.
  unfold OLS.variance. rewrite <- qmean_covariance.
  by rewrite (zip_with_diag (fun x y => (x - qmean a) * (y - qmean a))).
Qed.

End FloatLifting.

(** Three ticks with the draws 0, 1/6 and 1/3, that is the readings
    17.0, 18.0 and 19.0: the frame has three rows in that order, the
    latest reading is 19.0 and the line has slope 1 and intercept 17. *)
Lemma three_ticks :
  let tick u ts := [TimerFire; Render DisplayDf {| random := u; now := ts |}] in
  let s := run (tick 0%Q "2024-05-01 12:00:00" ++
                tick (1 # 6)%Q "2024-05-01 12:00:01" ++
                tick (1 # 3)%Q "2024-05-01 12:00:02") init in
  ∃ r t reg,
    calc s = Some r ∧ deref_frame s (df r) = Some t ∧
    len t = 3 ∧
    Forall2 (fun x y => (Temp x == y)%Q) (buffer s) [17; 18; 19]%Q ∧
    (Temp (latest_dictionary_entry r) == 19)%Q ∧
    trend t = Ok (Some reg) ∧
    Float.same (slope reg) (Finite 1) ∧ Float.same (intercept reg) (Finite 17).
Proof.
  intros tick s.
  destruct (calc s) as [r|] eqn:Hr; [|by vm_compute in Hr].
  destruct (deref_frame s (df r)) as [t|] eqn:Ht;
    [|vm_compute in Hr; injection Hr as <-; by vm_compute in Ht].
  vm_compute in Hr. injection Hr as <-.
  vm_compute in Ht. injection Ht as <-.
  eexists _, _, _. split; [reflexivity|]. split; [reflexivity|].
  split; [reflexivity|]. split; [by repeat constructor|].
  split; [by vm_compute|]. split; [by vm_compute|]. split; by vm_compute.
Qed.

(** * Further properties *)

(** ** The tuple of the calc *)

(** X1. Every tuple the calc returns is consistent: its deque is the
    buffer, its frame has one row per reading of the buffer, with the
    temperatures and the timestamps of the buffer in the buffer's order,
    and its latest reading is the newest item of the buffer. *)
Theorem combined_result_is_consistent (evs : list event) (e : env) :
  let s := run evs init in
  ∃ r s1 t,
    reactive_calc_combined e s = (Ok r, s1) ∧
    deref_deque s1 (deque_snapshot r) = Some (buffer s1) ∧
    deref_frame s1 (df r) = Some t ∧
    len t = length (buffer s1) ∧
    getitem t "Temp" = Ok (FloatCol (temps (buffer s1))) ∧
    (getitem t "Timestamp" = Ok (ObjectCol (map Timestamp (buffer s1))) ∨
     getitem t "Timestamp" = Ok (DatetimeCol (datetimes (buffer s1)))) ∧
    last (buffer s1) = Some (latest_dictionary_entry r).
Proof.
  intros s. pose proof (wf_reachable evs) as Hwf. fold s in Hwf.
  destruct (reactive_calc_wf e s Hwf) as (r & s1 & t0 & Hr & Hwf1 & Hc1 & _).
  destruct (wf_calc s1 Hwf1 r Hc1) as (_ & Hsnap & Hlast & t & Ht & Hf).
  destruct Hf as (_ & Hi & HT & HTs).
  exists r, s1, t. split; [done|].
  split; [rewrite Hsnap; by apply deref_deque_live|].
  split; [unfold deref_frame; by rewrite Ht|]. split; [done|].
  split; [unfold getitem; by rewrite HT|]. split; [|done].
  unfold getitem. destruct HTs as [-> | ->]; [by left|by right].
Qed.

(** ** What the display functions show *)

(** X2. [display_temp] shows the temperature, and [display_time] the
    timestamp, of the newest reading of the buffer, which is the last
    row of the frame that [display_df] hands out. *)
Theorem value_boxes_show_the_newest_reading (evs : list event) (e1 e2 e3 : env) :
  let s := run evs init in
  let s1 := snd (display_temp e1 s) in
  let s2 := snd (display_time e2 s1) in
  ∃ x l t,
    last (buffer s1) = Some x ∧
    fst (display_temp e1 s) = Ok (TempText (Temp x)) ∧
    fst (display_time e2 s1) = Ok (TimeText (Timestamp x)) ∧
    s2 = s1 ∧
    display_df e3 s2 = (Ok (DataGrid l), s2) ∧
    deref_frame s2 l = Some t ∧
    getitem t "Temp" = Ok (FloatCol (temps (buffer s1))).
Proof.
  intros s s1 s2. pose proof (wf_reachable evs) as Hwf. fold s in Hwf.
  destruct (render_spec DisplayTemp e1 s Hwf)
    as (r & s1' & t & _ & Hwf1 & Hc1 & Ht & Hf & Hcall & _).
  simpl in Hcall.
  assert (s1 = s1') as E by (subst s1; by rewrite Hcall). rewrite <- E in *. clear E.
  destruct (wf_calc s1 Hwf1 r Hc1) as (_ & _ & Hlast & _).
  pose proof (call_hit DisplayTime e2 s1 r t Hc1 Ht Hf) as H2. simpl in H2.
  assert (E2 : s2 = s1) by (subst s2; by rewrite H2).
  pose proof (call_hit DisplayDf e3 s1 r t Hc1 Ht Hf) as H3. simpl in H3.
  exists (latest_dictionary_entry r), (df r), t.
  split; [done|]. split; [by rewrite Hcall|]. split; [by rewrite H2|].
  split; [done|]. rewrite E2. split; [done|].
  split; [unfold deref_frame; by rewrite Ht|].
  destruct Hf as (_ & _ & HT & _). unfold getitem. by rewrite HT.
Qed.

(** X3. The figure of [display_plot]: a scatter of the buffer's
    temperatures against its timestamps, oldest first, and a line with
    one value per reading over the same timestamps, which is the column
    [best_fit_line] that the call leaves in the frame. *)
Theorem plot_shows_the_buffer (evs : list event) (e : env) :
  let s := run evs init in
  let s1 := snd (display_plot e s) in
  ∃ r t line,
    calc s1 = Some r ∧ deref_frame s1 (df r) = Some t ∧
    getitem t "best_fit_line" = Ok (FloatCol line) ∧
    length line = length (buffer s1) ∧
    fst (display_plot e s) =
      Ok (Plotly [Scatter (DatetimeCol (datetimes (buffer s1)))
                          (FloatCol (temps (buffer s1)));
                  Scatter (DatetimeCol (datetimes (buffer s1))) (FloatCol line)]).
Proof.
  intros s s1. pose proof (wf_reachable evs) as Hwf. fold s in Hwf.
  destruct (render_spec DisplayPlot e s Hwf)
    as (r & s0 & t & _ & Hwf0 & Hc0 & Ht & Hf & Hcall & _).
  simpl in Hcall.
  assert (Hs1 : s1 = left_by DisplayPlot r t s0) by (subst s1; by rewrite Hcall).
  assert (Hb : buffer s1 = buffer s0) by (rewrite Hs1; by apply buffer_left_by).
  eexists r, (plotted (buffer s0) t), _.
  split; [by rewrite Hs1, calc_left_by|].
  split; [by rewrite Hs1, deref_frame_left_by|].
  split; [unfold getitem; simpl; by rewrite assoc_get_set_eq|].
  split.
  - rewrite Hb. destruct Hf as (_ & Hi & _).
    rewrite length_map. unfold x_vals, len; simpl.
    by rewrite length_map, length_seq.
  - rewrite Hcall, Hb. reflexivity.
Qed.

(** X4. The figure of [display_pie_chart]: its two values are the numbers
    of readings of the buffer over 20 and at or below 20; they add up
    to the number of readings, which is between 1 and 10. *)
Theorem pie_counts_the_buffer (evs : list event) (e : env) :
  let s := run evs init in
  let b := buffer (snd (display_pie_chart e s)) in
  let over := length (filter (fun r => (20 < Temp r)%Q) b) in
  let under := length (filter (fun r => (Temp r <= 20)%Q) b) in
  fst (display_pie_chart e s) =
    Ok (Plotly [Pie ["Days over 20 Celsius"; "Days under 20 Celsius"] [over; under]]) ∧
  (over + under = length b)%nat ∧
  (1 <= length b <= DEQUE_SIZE)%nat.
Proof.
  intros s. pose proof (wf_reachable evs) as Hwf. fold s in Hwf.
  destruct (render_spec DisplayPieChart e s Hwf)
    as (r & s0 & t & _ & Hwf0 & Hc0 & Ht & Hf & Hcall & _).
  simpl in Hcall. rewrite Hcall. simpl fst. simpl snd.
  intros b over under. split; [|split].
  - unfold pie_figure. fold b. by rewrite count_over, count_under.
  - unfold over, under. rewrite <- count_over, <- count_under.
    rewrite <- (length_temps b). apply count_partition; [apply temps_not_nan|done].
  - destruct (wf_deque s0 Hwf0) as (d & Hd & _ & Hlen).
    destruct Hf as (Hne & _). unfold b. rewrite (buffer_eq s0 d Hd) in *.
    destruct (items d); [done|simpl in *; lia].
Qed.

(** ** One tick of the buffer *)

Lemma tail_snoc {A} (l : list A) x : l ≠ [] → tail (l ++ [x]) = tail l ++ [x].
Proof. by destruct l. Qed.

(** X5. A display call that finds the calc invalidated puts the new reading
    at the end of the buffer; if the buffer already held 10 readings the
    oldest is dropped and the other nine keep their order.  A call that
    finds the calc cached leaves the buffer alone. *)
Theorem tick_shifts_the_buffer (evs : list event) (c : consumer) (e : env) :
  let s := run evs init in
  buffer (step s (Render c e)) =
    match calc s with
    | Some _ => buffer s
    | None =>
        (if (length (buffer s) <? DEQUE_SIZE)%nat then buffer s else tail (buffer s))
        ++ [reading_of e]
    end.
Proof.
  intros s. pose proof (wf_reachable evs) as Hwf. fold s in Hwf.
  rewrite buffer_step_render by done. destruct (calc s); [done|].
  destruct (wf_deque s Hwf) as (d & Hd & Hm & Hlen).
  rewrite (the_deque_eq s d Hd), (buffer_eq s d Hd).
  rewrite deque_append_items by (by rewrite Hm). rewrite Hm.
  destruct (Nat.ltb_spec (length (items d)) DEQUE_SIZE) as [Hlt|Hge]; [done|].
  apply tail_snoc. intros Hnil. rewrite Hnil in Hge. unfold DEQUE_SIZE in Hge.
  simpl in Hge. lia.
Qed.

(** ** The pace of the readings *)

Lemma calc_step_render c e s : wf s → is_Some (calc (step s (Render c e))).
Proof.
  intros Hwf.
  destruct (render_spec c e s Hwf) as (r & s1 & t & _ & _ & Hc1 & _ & _ & Hcall & _).
  unfold step. rewrite Hcall. simpl snd. rewrite calc_left_by, Hc1. by eexists.
Qed.

Lemma pulls_bounded evs s :
  wf s →
  (length (pulls evs s)
   <= count_fires evs + match calc s with Some _ => 0 | None => 1 end)%nat.
Proof.
  revert s. induction evs as [|ev evs IH]; intros s Hwf; [simpl; lia|].
  pose proof (IH (step s ev) (wf_step s ev Hwf)) as Hle.
  change (pulls (ev :: evs) s) with (pulled s ev ++ pulls evs (step s ev)).
  rewrite length_app. destruct ev as [|c e].
  - change (step s TimerFire) with (timer_fire s) in Hle.
    change (count_fires (TimerFire :: evs)) with (S (count_fires evs)).
    change (pulled s TimerFire) with (@nil reading).
    destruct (calc (timer_fire s)), (calc s); simpl in *; lia.
  - destruct (calc_step_render c e s Hwf) as [r Hr]. rewrite Hr in Hle.
    change (count_fires (Render c e :: evs)) with (count_fires evs).
    unfold pulled. destruct (calc s); simpl in *; lia.
Qed.

(** X6. The source is asked for at most one reading per firing of the timer,
    and for one more at the start of the session, however often the
    display functions are called. *)
Theorem at_most_one_reading_per_firing (evs : list event) :
  (length (pulls evs init) <= S (count_fires evs))%nat.
Proof.
  pose proof (pulls_bounded evs init wf_init) as H. simpl in H. lia.
Qed.

(** ** Frames are left behind *)

(** An object that is neither the deque nor the frame of the cached
    tuple is not written to by any event. *)
Lemma heap_untouched l o evs s :
  wf s → heap s !! l = Some o → l ≠ reactive_value_wrapper s →
  (∀ r, calc s = Some r → df r ≠ l) →
  heap (run evs s) !! l = Some o.
Proof.
  revert s. induction evs as [|ev evs IH]; intros s Hwf Hl Hrv Hdf; [done|].
  change (run (ev :: evs) s) with (run evs (step s ev)).
  pose proof (wf_step s ev Hwf) as Hwf'.
  assert (Hrv' : l ≠ reactive_value_wrapper (step s ev))
    by (rewrite (wf_loc _ Hwf'), <- (wf_loc _ Hwf); done).
  destruct ev as [|c e].
  - apply IH; try done.
    + simpl. unfold timer_fire. by destruct (timer s).
    + intros r Hr. simpl in Hr. by rewrite calc_timer_fire in Hr.
  - destruct (render_spec c e s Hwf)
      as (r & s1 & t & Hr & Hwf1 & Hc1 & Ht & Hf & Hcall & _).
    assert (Hstep : step s (Render c e) = left_by c r t s1)
      by (unfold step; by rewrite Hcall).
    assert (H1 : heap s1 !! l = Some o ∧ df r ≠ l).
    { destruct (calc s) as [r0|] eqn:Hc.
      - rewrite (reactive_calc_hit e r0 s Hc) in Hr. injection Hr as <- <-.
        split; [done|by apply Hdf].
      - destruct (wf_deque s Hwf) as (d & Hd & _).
        rewrite (reactive_calc_miss e d s Hc Hd) in Hr. injection Hr as <- <-.
        assert (Hfresh : df (fst (computed e d s)) ≠ l).
        { simpl. intros Heq.
          pose proof (is_fresh (dom (<[reactive_value_wrapper s:=ODeque (deque_append d (reading_of e))]> (heap s)))) as Hfr.
          rewrite Heq in Hfr. apply Hfr. rewrite dom_insert_L.
          apply elem_of_union_r, elem_of_dom. by eexists. }
        split; [|done]. simpl in *.
        rewrite lookup_insert_ne by done. by rewrite lookup_insert_ne. }
    destruct H1 as [Hl1 Hne].
    rewrite Hstep in *. apply IH; try done.
    + destruct c; try done. simpl. by rewrite lookup_insert_ne.
    + intros r' Hr'. rewrite calc_left_by, Hc1 in Hr'. by injection Hr' as <-.
Qed.

(** X7. Unlike the deque, the frame of a tuple is a picture of its tick:
    once the timer has fired, no later event changes it.  It holds what
    the display functions of its own interval left in it. *)
Theorem frame_is_left_alone_after_its_interval (evs : list event) (e : env)
    (mid : list (consumer * env)) (later : list event) :
  let s := run evs init in
  let s1 := run (renders mid) (snd (reactive_calc_combined e s)) in
  ∃ r t,
    fst (reactive_calc_combined e s) = Ok r ∧
    deref_frame s1 (df r) = Some t ∧
    deref_frame (run (TimerFire :: later) s1) (df r) = Some t.
Proof.
  intros s s1. pose proof (wf_reachable evs) as Hwf. fold s in Hwf.
  destruct (reactive_calc_cached e s Hwf) as (r & Hr & Hwf0 & Hc0).
  destruct (wf_calc _ Hwf0 r Hc0) as (_ & _ & _ & t0 & Ht0 & _).
  destruct (renders_cached mid _ r t0 Hwf0 Hc0 Ht0) as (Hwf1 & Hc1 & _ & _ & Hfr & _).
  fold s1 in Hwf1, Hc1, Hfr.
  eexists r, _. split; [by rewrite Hr|]. split; [exact Hfr|].
  unfold deref_frame in *.
  destruct (heap s1 !! df r) as [[d|t1]|] eqn:Hl; try done.
  change (run (TimerFire :: later) s1) with (run later (timer_fire s1)).
  rewrite (heap_untouched (df r) (OFrame t1) later (timer_fire s1)); [done|..].
  - by apply wf_timer_fire.
  - unfold timer_fire. by destruct (timer s1).
  - assert (reactive_value_wrapper (timer_fire s1) = reactive_value_wrapper s1) as ->
      by (unfold timer_fire; by destruct (timer s1)).
    by eapply wf_frame_loc.
  - intros r' Hr'. by rewrite calc_timer_fire in Hr'.
Qed.

(** ** The display functions of one interval *)

Lemma rendered_of_plotted c r b t :
  rendered_of c r b (plotted b t) = rendered_of c r b t.
Proof. by destruct c. Qed.

(** X8. Within one interval the display functions may be called in any
    order and any number of times.  The session they leave depends only
    on whether [display_plot] was among them.  [display_temp],
    [display_time], [display_plot] and [display_pie_chart] return what
    they would have returned right after the calc was computed.
    [display_df] returns a grid over the same frame object; the table in
    it is the one the calc built until [display_plot] has run, and that
    table as [display_plot] leaves it afterwards. *)
Theorem display_results_within_an_interval (evs : list event) (e1 : env)
    (mid : list (consumer * env)) (c : consumer) (e2 : env) :
  let s := run evs init in
  let s1 := snd (reactive_calc_combined e1 s) in
  let s2 := run (renders mid) s1 in
  let plot_ran := existsb is_plot (map fst mid) in
  s2 = (if plot_ran then snd (display_plot e1 s1) else s1) ∧
  match c with
  | DisplayDf =>
      ∃ l t,
        fst (display_df e2 s1) = Ok (DataGrid l) ∧
        fst (display_df e2 s2) = Ok (DataGrid l) ∧
        deref_frame s1 l = Some t ∧
        deref_frame s2 l = Some (if plot_ran then plotted (buffer s1) t else t)
  | _ => fst (call c e2 s2) = fst (call c e2 s1)
  end.
Proof.
  intros s s1 s2 plot_ran. pose proof (wf_reachable evs) as Hwf. fold s in Hwf.
  destruct (reactive_calc_cached e1 s Hwf) as (r & Hr & Hwf1 & Hc1).
  fold s1 in Hr, Hwf1, Hc1.
  destruct (wf_calc s1 Hwf1 r Hc1) as (_ & _ & _ & t & Ht & Hf).
  pose proof (renders_leave mid s1 r t Hwf1 Hc1 Ht) as Hs2.
  fold s2 plot_ran in Hs2.
  pose proof (call_hit DisplayPlot e1 s1 r t Hc1 Ht Hf) as Hp. simpl in Hp.
  split; [by rewrite Hp|].
  assert (Hl : heap s2 !! df r
               = Some (OFrame (if plot_ran then plotted (buffer s1) t else t))).
  { rewrite Hs2. destruct plot_ran; [|done]. simpl. by rewrite lookup_insert_eq. }
  assert (Hb : buffer s2 = buffer s1).
  { rewrite Hs2. destruct plot_ran; [|done]. by apply (buffer_left_by DisplayPlot). }
  assert (Hc2 : calc s2 = Some r) by (rewrite Hs2; by destruct plot_ran).
  assert (Hf2 : frame_of (buffer s2) (if plot_ran then plotted (buffer s1) t else t)).
  { rewrite Hb. destruct plot_ran; [by apply frame_of_plotted|done]. }
  assert (Hsame : ∀ c', fst (call c' e2 s2) = fst (call c' e2 s1)).
  { intros c'. rewrite (call_hit c' e2 s1 r t Hc1 Ht Hf).
    rewrite (call_hit c' e2 s2 r _ Hc2 Hl Hf2). simpl. rewrite Hb.
    destruct plot_ran; [|done]. by rewrite rendered_of_plotted. }
  destruct c; try apply Hsame.
  exists (df r), t.
  pose proof (call_hit DisplayDf e2 s1 r t Hc1 Ht Hf) as Hd1.
  pose proof (call_hit DisplayDf e2 s2 r _ Hc2 Hl Hf2) as Hd2.
  simpl in Hd1, Hd2. rewrite Hd1, Hd2. simpl.
  split; [done|]. split; [done|].
  unfold deref_frame. by rewrite Ht, Hl.
Qed.

(** ** The fitted line *)

Lemma x_vals_indices t : map Float.of_Z (x_vals t) = map Finite (indices (index t)).
Proof. unfold x_vals, len, indices. rewrite !map_map. by apply map_ext. Qed.

Lemma temps_finite b : temps b = map Finite (map Temp b).
Proof. unfold temps. by rewrite map_map. Qed.

(** From two readings on the regression returns numbers: in the exact
    arithmetic of the model, the least-squares coefficients. *)
Lemma least_squares_line n (ys : list Q) :
  (2 <= n)%nat → length ys = n →
  ∃ sl ic,
    least_squares (map Finite (indices n)) (map Finite ys)
      = {| slope := Finite sl; intercept := Finite ic |} ∧
    (sl == OLS.slope (indices n) ys)%Q ∧
    (ic == OLS.intercept (indices n) ys)%Q.
Proof.
  intros Hn Hy. rewrite (least_squares_finite n ys Hn Hy). cbv zeta.
  eexists _, _. split; [reflexivity|].
  unfold OLS.intercept, OLS.slope. split.
  - by rewrite qmean_covariance, qmean_variance.
  - by rewrite qmean_covariance, qmean_variance, !qmean_mean.
Qed.

Lemma best_fit_line_numbers sl ic xs :
  ∃ line, best_fit_line {| slope := Finite sl; intercept := Finite ic |} xs
          = FloatCol line ∧ forallb is_number line = true.
Proof.
  eexists. split; [reflexivity|]. simpl.
  induction xs as [|x xs IH]; [done|]. simpl. exact IH.
Qed.

Lemma plotted_line b t :
  index t = length b →
  assoc_get "best_fit_line" (columns (plotted b t))
  = Some (best_fit_line
            (least_squares (map Finite (indices (length b))) (temps b))
            (map Z.of_nat (seq 0 (length b)))).
Proof.
  intros Hi. unfold plotted. cbv zeta. simpl columns.
  rewrite assoc_get_set_eq, x_vals_indices. unfold x_vals, len. simpl index.
  by rewrite Hi.
Qed.

(** X9. The column [best_fit_line] that [display_plot] leaves in the frame:
    with one reading in the buffer it is the single value NaN; with two
    or more it holds numbers only, no NaN and no infinity. *)
Theorem fitted_line_is_drawn_from_two_readings_on (evs : list event) (e : env) :
  let s1 := snd (display_plot e (run evs init)) in
  ∃ r t line,
    calc s1 = Some r ∧ deref_frame s1 (df r) = Some t ∧
    getitem t "best_fit_line" = Ok (FloatCol line) ∧
    if (length (buffer s1) =? 1)%nat then line = [NaN]
    else forallb is_number line = true.
Proof.
  intros s1. pose proof (wf_reachable evs) as Hwf.
  destruct (render_spec DisplayPlot e _ Hwf)
    as (r & s0 & t & _ & Hwf0 & Hc0 & Ht & Hf & Hcall & _).
  simpl in Hcall.
  assert (Hs1 : s1 = left_by DisplayPlot r t s0) by (subst s1; by rewrite Hcall).
  assert (Hb : buffer s1 = buffer s0) by (rewrite Hs1; by apply buffer_left_by).
  rewrite Hb. destruct Hf as (Hne & Hi & _).
  assert (Hcol : ∃ line,
    best_fit_line
      (least_squares (map Finite (indices (length (buffer s0)))) (temps (buffer s0)))
      (map Z.of_nat (seq 0 (length (buffer s0)))) = FloatCol line ∧
    if (length (buffer s0) =? 1)%nat then line = [NaN]
    else forallb is_number line = true).
  { destruct (buffer s0) as [|a [|b0 l]] eqn:Eb; [done| |].
    - change (temps [a]) with [Finite (Temp a)].
      change (map Finite (indices (length [a]))) with [Float.of_Z 0].
      rewrite least_squares_single. eexists. split; reflexivity.
    - rewrite temps_finite.
      destruct (least_squares_line (length (a :: b0 :: l)) (map Temp (a :: b0 :: l)))
        as (sl & ic & Hls & _); [simpl; lia|apply length_map|].
      rewrite Hls.
      destruct (best_fit_line_numbers sl ic
                  (map Z.of_nat (seq 0 (length (a :: b0 :: l))))) as (line & E & Hnum).
      exists line. split; [exact E|]. simpl. exact Hnum. }
  destruct Hcol as (line & Hline & Hshape).
  exists r, (plotted (buffer s0) t), line.
  split; [by rewrite Hs1, calc_left_by|].
  split; [by rewrite Hs1, deref_frame_left_by|]. split; [|done].
  unfold getitem. by rewrite (plotted_line _ _ Hi), Hline.
Qed.

(** ** The values of the readings *)

Lemma pulls_forall (P : reading → Prop) evs s :
  (∀ ev, ev ∈ evs → match ev with Render _ e => P (reading_of e) | TimerFire => True end) →
  Forall P (pulls evs s).
Proof.
  revert s. induction evs as [|ev evs IH]; intros s HP; [constructor|].
  simpl. apply Forall_app. split.
  - pose proof (HP ev (list_elem_of_here _ _)) as Hev.
    destruct ev as [|c e]; simpl; [constructor|].
    destruct (calc s); [constructor|]. by apply Forall_cons.
  - apply IH. intros ev' Hin. apply HP. by apply list_elem_of_further.
Qed.

Lemma reading_of_tenths e :
  draw_ok e →
  ∃ k : Z, (170 <= k <= 230)%Z ∧ (Temp (reading_of e) == inject_Z k / 10)%Q.
Proof.
  intros [H0 H1]. unfold reading_of, round, uniform. simpl Temp.
  change (inject_Z (10 ^ Z.of_nat 1)) with (inject_Z 10).
  eexists. split; [|reflexivity].
  apply round_half_even_bounds.
  - change (inject_Z 170) with (170 # 1)%Q. change (inject_Z 10) with (10 # 1)%Q. lra.
  - change (inject_Z 230) with (230 # 1)%Q. change (inject_Z 10) with (10 # 1)%Q. lra.
Qed.

(** X13. When every draw of [random()] lies in [0, 1), every reading of the
    buffer is a whole number of tenths: one of the 61 values 17.0, 17.1,
    ..., 23.0. *)
Theorem readings_are_tenths (evs : list event) :
  Forall fair evs →
  Forall (fun r => ∃ k : Z, (170 <= k <= 230)%Z ∧ (Temp r == inject_Z k / 10)%Q)
         (buffer (run evs init)).
Proof.
  intros Hfair. rewrite buffer_reachable, pushes_items. unfold last_n.
  apply Forall_drop, pulls_forall. intros ev Hin.
  rewrite Forall_forall in Hfair. specialize (Hfair ev Hin).
  destruct ev as [|c e]; [done|]. by apply reading_of_tenths.
Qed.

(** The first tick of a session, with the draw 0. *)
Lemma readings_are_tenths_first_tick :
  Forall fair [Render DisplayDf sample_env] ∧
  Forall (fun r => ∃ k : Z, (170 <= k <= 230)%Z ∧ (Temp r == inject_Z k / 10)%Q)
         (buffer (run [Render DisplayDf sample_env] init)).
Proof.
  assert (H : Forall fair [Render DisplayDf sample_env]).
  { apply Forall_cons. split; [|constructor].
    split; simpl; [discriminate|reflexivity]. }
  split; [exact H|]. exact (readings_are_tenths _ H).
Defined.

(** ** Frames the calc never builds *)

(** X14. Given a frame that is empty (no column or no row), [display_plot]
    skips the plotting, then fails on [return fig]: no figure was bound.
    It raises [UnboundLocalError] and leaves the session as it is. *)
Theorem display_plot_fails_on_an_empty_frame (e : env) (s : session)
    (r : combined) (t : DataFrame) :
  calc s = Some r → heap s !! df r = Some (OFrame t) → empty t = true →
  display_plot e s = (Raise (UnboundLocalError "fig"), s).
Proof.
  intros Hc Ht He. unfold display_plot.
  rewrite (M_bind_ok _ _ _ _ _ (reactive_calc_hit e r s Hc)).
  rewrite (M_bind_ok _ _ _ _ _ (load_frame_ok _ _ _ Ht)).
  by rewrite He.
Qed.

Lemma display_plot_fails_on_the_empty_deque :
  calc session_with_empty_frame
    = Some {| deque_snapshot := 0; df := 1;
              latest_dictionary_entry := reading_of sample_env |} ∧
  heap session_with_empty_frame !! 1 = Some (OFrame (pd_DataFrame [])) ∧
  empty (pd_DataFrame []) = true ∧
  display_plot sample_env session_with_empty_frame
    = (Raise (UnboundLocalError "fig"), session_with_empty_frame).
Proof.
  assert (H1 : calc session_with_empty_frame
    = Some {| deque_snapshot := 0; df := 1;
              latest_dictionary_entry := reading_of sample_env |}) by reflexivity.
  assert (H2 : heap session_with_empty_frame !! 1 = Some (OFrame (pd_DataFrame [])))
    by (vm_compute; reflexivity).
  assert (H3 : empty (pd_DataFrame []) = true) by reflexivity.
  split; [exact H1|]. split; [exact H2|]. split; [exact H3|].
  exact (display_plot_fails_on_an_empty_frame sample_env _ _ _ H1 H2 H3).
Defined.

(** X15. Given a frame without a column [Temp], [display_pie_chart] raises
    [KeyError] for that key and leaves the session as it is. *)
Theorem display_pie_chart_fails_without_temp (e : env) (s : session)
    (r : combined) (t : DataFrame) :
  calc s = Some r → heap s !! df r = Some (OFrame t) →
  assoc_get "Temp" (columns t) = None →
  display_pie_chart e s = (Raise (KeyError "Temp"), s).
Proof.
  intros Hc Ht Hk. unfold display_pie_chart.
  rewrite (M_bind_ok _ _ _ _ _ (reactive_calc_hit e r s Hc)).
  rewrite (M_bind_ok _ _ _ _ _ (load_frame_ok _ _ _ Ht)).
  unfold over_20, getitem. by rewrite Hk.
Qed.

Lemma display_pie_chart_fails_on_the_empty_deque :
  calc session_with_empty_frame
    = Some {| deque_snapshot := 0; df := 1;
              latest_dictionary_entry := reading_of sample_env |} ∧
  heap session_with_empty_frame !! 1 = Some (OFrame (pd_DataFrame [])) ∧
  assoc_get "Temp" (columns (pd_DataFrame [])) = None ∧
  display_pie_chart sample_env session_with_empty_frame
    = (Raise (KeyError "Temp"), session_with_empty_frame).
Proof.
  assert (H1 : calc session_with_empty_frame
    = Some {| deque_snapshot := 0; df := 1;
              latest_dictionary_entry := reading_of sample_env |}) by reflexivity.
  assert (H2 : heap session_with_empty_frame !! 1 = Some (OFrame (pd_DataFrame [])))
    by (vm_compute; reflexivity).
  assert (H3 : assoc_get "Temp" (columns (pd_DataFrame [])) = None) by reflexivity.
  split; [exact H1|]. split; [exact H2|]. split; [exact H3|].
  exact (display_pie_chart_fails_without_temp sample_env _ _ _ H1 H2 H3).
Defined.
